(** * EC2 / AMI audit scripts: a shallow embedding and its properties

    The repository holds two command-line scripts:
    - [check_ami.py] lists the EC2 instances of a region, fetches the
      metadata of the images they run and flags images older than 90 days;
    - [latest_ami.py] looks up the newest image matching a name pattern.

    Both scripts print to standard output, call the EC2 API through a
    client, read the wall clock and catch exceptions.  They are embedded
    here as computations in a small state-and-exception monad over a
    [world] that records the printed lines, the API calls issued and the
    number of clock reads.  The EC2 service, the clock and the library
    functions of [datetime] are parameters gathered in a [runtime]. *)

From Stdlib Require Import List String Ascii ZArith Lia Bool Permutation.
From Stdlib Require Import Sorting.Sorted DecimalString.
Import ListNotations.
Open Scope string_scope.
Open Scope Z_scope.

(* ================================================================== *)
(** ** Python strings

    A string is the sequence of its characters, one [ascii] each.  That is
    exact for the ASCII text of identifiers, names and dates that the API
    returns; lengths and slices count characters as Python does. *)

(** [str(n)] for an [int]. *)
Definition str_of_int (n : Z) : string :=
  NilZero.string_of_int (Z.to_int n).

(** [len(s)] as a Python [int]. *)
Definition len_str (s : string) : Z := Z.of_nat (String.length s).

(** A run of [n] copies of the character [c]: ["c" * n]. *)
Fixpoint str_repeat (c : ascii) (n : nat) : string :=
  match n with
  | O => EmptyString
  | S k => String c (str_repeat c k)
  end.

(** The format specification [{s:<w}]: left-aligned in a field of minimal
    width [w], padded with spaces, never truncated. *)
Definition ljust (s : string) (w : nat) : string :=
  s ++ str_repeat " "%char (w - String.length s).

(** The slice [s[:n]]. *)
Definition str_take (n : nat) (s : string) : string := String.substring 0 n s.

(** [s.replace(c, by)] for a pattern [c] of one character: every occurrence
    is replaced. *)
Fixpoint str_replace (c : ascii) (by_ : string) (s : string) : string :=
  match s with
  | EmptyString => EmptyString
  | String a rest =>
      if Ascii.eqb a c then by_ ++ str_replace c by_ rest
      else String a (str_replace c by_ rest)
  end.

(** Python compares strings lexicographically, character by character;
    [String.ltb] is that order. *)
Definition str_lt (a b : string) : Prop := String.ltb a b = true.

(** The line feed of ["\n"]. *)
Definition nl : string := String (ascii_of_nat 10) EmptyString.

(* ================================================================== *)
(** ** Exceptions, the world and the monad of the scripts *)

(** A raised exception; [exn_str] is what [f"{e}"] prints.  Only instances
    of [Exception] are modelled: every handler of the scripts is
    [except Exception]. *)
Inductive exn : Type := Exception (msg : string).

Definition exn_str (e : exn) : string :=
  match e with Exception msg => msg end.

Inductive outcome (A : Type) : Type :=
| Return (a : A)
| Raise (e : exn).
Arguments Return {A} a.
Arguments Raise {A} e.

(** The requests the scripts send to the EC2 service. *)
Inductive api_call : Type :=
| DescribeInstances (region : string)
| DescribeImages (region : string) (image_ids : list string)
| DescribeImagesFiltered (region : string) (owners : list string)
    (filters : list (string * list string)).

Record world : Type := mkWorld {
  stdout : list string;      (* one entry per [print] call, oldest first *)
  api_log : list api_call;   (* requests issued, oldest first *)
  clock_reads : nat          (* how often the wall clock was read *)
}.

Definition init_world : world := mkWorld [] [] 0.

Definition M (A : Type) : Type := world -> outcome A * world.

Definition ret {A} (a : A) : M A := fun w => (Return a, w).

Definition bind {A B} (m : M A) (f : A -> M B) : M B :=
  fun w =>
    match m w with
    | (Return a, w') => f a w'
    | (Raise e, w') => (Raise e, w')
    end.

Notation "x <- m ;; k" := (bind m (fun x => k))
  (at level 61, m at next level, right associativity).
Notation "m ;;; k" := (bind m (fun _ => k))
  (at level 61, right associativity).

(** [try: body  except Exception as e: handler e]. *)
Definition try_except {A} (body : M A) (handler : exn -> M A) : M A :=
  fun w =>
    match body w with
    | (Return a, w') => (Return a, w')
    | (Raise e, w') => handler e w'
    end.

(** [print(s)]. *)
Definition print (s : string) : M unit :=
  fun w => (Return tt, mkWorld (stdout w ++ [s]) (api_log w) (clock_reads w)).

(** The [KeyError] of a missing key [k]; it prints as the quoted key. *)
Definition key_error {A} (k : string) : outcome A :=
  Raise (Exception ("'" ++ k ++ "'")).

(** Turns the result of a library or service call into a computation. *)
Definition lift {A} (r : outcome A) : M A := fun w => (r, w).

(** [for x in xs: body x]. *)
Fixpoint for_each {A} (xs : list A) (body : A -> M unit) : M unit :=
  match xs with
  | [] => ret tt
  | x :: rest => body x ;;; for_each rest body
  end.

(** The world after the lines [ls] were printed. *)
Definition emit (ls : list string) (w : world) : world :=
  mkWorld (stdout w ++ ls) (api_log w) (clock_reads w).

(** What a script printed and which requests it sent, when started in the
    initial world. *)
Definition output_of {A} (m : M A) : list string := stdout (snd (m init_world)).
Definition calls_of {A} (m : M A) : list api_call := api_log (snd (m init_world)).

(** [sorted(xs)] on strings: a stable sort that compares with [<] only.
    Which stable algorithm runs does not show in the result; insertion
    from the left is the simplest one. *)
Fixpoint insert_sorted (x : string) (l : list string) : list string :=
  match l with
  | [] => [x]
  | y :: rest =>
      if String.ltb x y then x :: y :: rest else y :: insert_sorted x rest
  end.

Definition sorted (xs : list string) : list string :=
  fold_left (fun acc x => insert_sorted x acc) xs [].

(** [set(xs)] keeps one copy of each element. *)
Definition dedup (xs : list string) : list string := nodup string_dec xs.

(* ================================================================== *)
(** ** Dictionaries

    A Python [dict] with string keys iterates in insertion order, and an
    assignment to a key that is already present keeps the key's place. *)

Definition dict (V : Type) : Type := list (string * V).

Fixpoint dict_set {V} (k : string) (v : V) (d : dict V) : dict V :=
  match d with
  | [] => [(k, v)]
  | (k', v') :: rest =>
      if String.eqb k k' then (k, v) :: rest
      else (k', v') :: dict_set k v rest
  end.

Fixpoint dict_get {V} (k : string) (d : dict V) : option V :=
  match d with
  | [] => None
  | (k', v) :: rest => if String.eqb k k' then Some v else dict_get k rest
  end.

(** [k in d]. *)
Definition dict_mem {V} (k : string) (d : dict V) : bool :=
  match dict_get k d with Some _ => true | None => false end.

(** [d[k]]. *)
Definition dict_item {V} (k : string) (d : dict V) : outcome V :=
  match dict_get k d with Some v => Return v | None => key_error k end.

Definition dict_keys {V} (d : dict V) : list string := map fst d.

(** The dictionaries a program can build have one entry per key. *)
Definition dict_wf {V} (d : dict V) : Prop := NoDup (dict_keys d).

(* ================================================================== *)
(** ** Dates and times *)

(** A [datetime]: microseconds since the epoch, and whether the value
    carries a time zone.  For an aware value the instant is in UTC. *)
Record datetime : Type := mkDatetime {
  instant : Z;
  aware : bool
}.

Definition microseconds_per_day : Z := 86400 * 1000000.

(** [(a - b).days].  Subtracting an aware and a naive value raises
    [TypeError]; [timedelta] normalises so that [days] is the floor. *)
Definition days_between (a b : datetime) : outcome Z :=
  if Bool.eqb (aware a) (aware b)
  then Return ((instant a - instant b) / microseconds_per_day)
  else Raise (Exception "can't subtract offset-naive and offset-aware datetimes").

(** [a > b] on [datetime] values. *)
Definition datetime_gt (a b : datetime) : outcome bool :=
  if Bool.eqb (aware a) (aware b)
  then Return (instant a >? instant b)
  else Raise (Exception "can't compare offset-naive and offset-aware datetimes").

(* ================================================================== *)
(** ** Records of the EC2 API *)

(** An element of [reservation['Instances']]. *)
Record instance : Type := mkInstance {
  InstanceId : string;
  InstanceType : string;
  instance_ImageId : string;
  LaunchTime : datetime;
  State_Name : string          (* instance['State']['Name'] *)
}.

Record reservation : Type := mkReservation {
  Instances : list instance
}.

Record tag : Type := mkTag { Key : string; Value : string }.

(** [mapping['Ebs']]; each key may be missing. *)
Record ebs : Type := mkEbs {
  VolumeSize : option Z;
  VolumeType : option string;
  Encrypted : option bool
}.

Record block_device_mapping : Type := mkMapping {
  DeviceName : string;
  Ebs : option ebs
}.

(** An element of [response['Images']].  Keys the scripts read with [get]
    or test with [in] are optional, and so is [Name], which the API leaves
    out for an image without a name. *)
Record image : Type := mkImage {
  ImageId : string;
  Name : option string;
  Description : option string;
  OwnerId : string;
  Architecture : string;
  RootDeviceType : string;
  VirtualizationType : string;
  State : string;
  CreationDate : string;
  Tags : option (list tag);
  BlockDeviceMappings : option (list block_device_mapping)
}.

(** What the scripts do not define themselves: the EC2 service seen through
    [boto3], the wall clock and two functions of [datetime].  A client is
    identified with its region: [boto3.client] sends no request, and only
    the calls on the client are modelled. *)
Record runtime : Type := mkRuntime {
  (* ec2.describe_instances() of a client for the region *)
  describe_instances : string -> outcome (list reservation);
  (* ec2.describe_images(ImageIds=ids) *)
  describe_images : string -> list string -> outcome (list image);
  (* ec2.describe_images(Owners=owners, Filters=filters) *)
  describe_images_filtered :
    string -> list string -> list (string * list string) -> outcome (list image);
  (* the instant of the n-th call of datetime.now(timezone.utc) *)
  clock : nat -> Z;
  (* datetime.fromisoformat; raises ValueError on a malformed string *)
  fromisoformat : string -> outcome datetime;
  (* d.strftime(fmt) *)
  strftime : datetime -> string -> string;
  (* the order in which list(set(xs)) enumerates the distinct elements *)
  set_order : list string -> list string
}.

(** [datetime.now(timezone.utc)]: an aware value. *)
Definition now (R : runtime) : M datetime :=
  fun w =>
    (Return (mkDatetime (clock R (clock_reads w)) true),
     mkWorld (stdout w) (api_log w) (S (clock_reads w))).

(** The world after the request [c] was sent. *)
Definition logged (c : api_call) (w : world) : world :=
  mkWorld (stdout w) (api_log w ++ [c]) (clock_reads w).

(** A request to the service: logged, then answered or failed. *)
Definition call_api {A} (c : api_call) (answer : outcome A) : M A :=
  fun w => (answer, logged c w).

(** [list(set(xs))]: the distinct elements, in the order of the set. *)
Definition list_of_set (R : runtime) (xs : list string) : list string :=
  set_order R (dedup xs).

(** [datetime.fromisoformat(s.replace('Z', '+00:00'))]. *)
Definition parse_creation_date (R : runtime) (s : string) : outcome datetime :=
  fromisoformat R (str_replace "Z"%char "+00:00" s).

(* ================================================================== *)
(** ** check_ami.py *)

Module check_ami.

(** The value stored for an image in [ami_info]. *)
Record ami_entry : Type := mkEntry {
  name : string;
  creation_date : datetime;
  creation_date_str : string;
  age_days : Z
}.

Definition not_terminated (i : instance) : bool :=
  negb (String.eqb (State_Name i) "terminated").

Definition get_ec2_instances (R : runtime) (region : string)
  : M (list instance) :=
  try_except
    (response <- call_api (DescribeInstances region)
                          (describe_instances R region) ;;
     ret (flat_map (fun r => filter not_terminated (Instances r)) response))
    (fun e =>
       print ("Error fetching EC2 instances: " ++ exn_str e) ;;;
       ret []).

(** The body of the loop of [get_ami_info] up to the assignment: the entry
    built for one image.  The fields are evaluated in the order of the
    dictionary display. *)
Definition ami_entry_of (R : runtime) (img : image) : M ami_entry :=
  created <- lift (parse_creation_date R (CreationDate img)) ;;
  let nm := match Name img with Some n => n | None => "Unknown" end in
  let created_str := strftime R created "%Y-%m-%d %H:%M:%S UTC" in
  t <- now R ;;
  age <- lift (days_between t created) ;;
  ret (mkEntry nm created created_str age).

(** The loop of [get_ami_info].  [ami_info] is updated in place, so what
    was stored before an exception stays: the loop yields the dictionary
    together with the exception that stopped it, if any. *)
Fixpoint fill_ami_info (R : runtime) (images : list image)
    (ami_info : dict ami_entry) (w : world)
  : dict ami_entry * option exn * world :=
  match images with
  | [] => (ami_info, None, w)
  | img :: rest =>
      match ami_entry_of R img w with
      | (Return entry, w') =>
          fill_ami_info R rest (dict_set (ImageId img) entry ami_info) w'
      | (Raise e, w') => (ami_info, Some e, w')
      end
  end.

Definition get_ami_info (R : runtime) (region : string) (ami_ids : list string)
  : M (dict ami_entry) :=
  fun w =>
    match ami_ids with
    | [] => (Return [], w)
    | _ :: _ =>
        match call_api (DescribeImages region ami_ids)
                       (describe_images R region ami_ids) w with
        | (Return response, w1) =>
            match fill_ami_info R response [] w1 with
            | (ami_info, None, w2) => (Return ami_info, w2)
            | (ami_info, Some e, w2) =>
                (print ("Error fetching AMI information: " ++ exn_str e) ;;;
                 ret ami_info) w2
            end
        | (Raise e, w1) =>
            (print ("Error fetching AMI information: " ++ exn_str e) ;;;
             ret []) w1
        end
    end.

(** The default of the parameter [rotation_days]. *)
Definition rotation_days_default : Z := 90.

Fixpoint check_ami_rotation (ami_info : dict ami_entry) (rotation_days : Z)
  : list string :=
  match ami_info with
  | [] => []
  | (ami_id, info) :: rest =>
      if age_days info >? rotation_days
      then ami_id :: check_ami_rotation rest rotation_days
      else check_ami_rotation rest rotation_days
  end.

(** One line of the table of instances. *)
Definition instance_row (R : runtime) (i : instance) : string :=
  let launch_time := strftime R (LaunchTime i) "%Y-%m-%d %H:%M:%S" in
  ljust (InstanceId i) 20 ++ " " ++ ljust (InstanceType i) 15 ++ " "
  ++ ljust (instance_ImageId i) 15 ++ " " ++ ljust launch_time 20.

(** One line of the table of images. *)
Definition ami_row (ami_info : dict ami_entry) (ami_id : string) : string :=
  match dict_get ami_id ami_info with
  | Some info =>
      let nm := if len_str (name info) >? 29
                then str_take 29 (name info) else name info in
      ljust ami_id 15 ++ " " ++ ljust nm 30 ++ " "
      ++ ljust (creation_date_str info) 20 ++ " "
      ++ ljust (str_of_int (age_days info)) 10
  | None =>
      ljust ami_id 15 ++ " " ++ ljust "Unknown" 30 ++ " "
      ++ ljust "Unknown" 20 ++ " " ++ ljust "Unknown" 10
  end.

(** One line of the rotation warning; the two subscripts raise [KeyError]
    for an id that is not in [ami_info]. *)
Definition warning_row (ami_info : dict ami_entry) (ami_id : string) : M unit :=
  info <- lift (dict_item ami_id ami_info) ;;
  print ("  - " ++ ami_id ++ ": " ++ name info
         ++ " (" ++ str_of_int (age_days info) ++ " days old)").

(** The closing section of the report. *)
Definition rotation_section (ami_info : dict ami_entry) : M unit :=
  let old_amis := check_ami_rotation ami_info rotation_days_default in
  match old_amis with
  | _ :: _ =>
      print (nl ++ "⚠️  AMI ROTATION WARNING:") ;;;
      print "The following AMIs are older than 90 days and should be rotated:" ;;;
      for_each old_amis (warning_row ami_info)
  | [] =>
      print (nl ++ "✅ All AMIs are within the 90-day rotation policy.")
  end.

Definition main (R : runtime) (region : string) : M unit :=
  print ("Checking EC2 instances in region: " ++ region) ;;;
  print (str_repeat "="%char 50) ;;;
  instances <- get_ec2_instances R region ;;
  match instances with
  | [] => print "No EC2 instances found or error occurred."
  | _ :: _ =>
      let ami_ids := list_of_set R (map instance_ImageId instances) in
      ami_info <- get_ami_info R region ami_ids ;;
      print (nl ++ "SUMMARY:") ;;;
      print ("Total EC2 instances: "
             ++ str_of_int (Z.of_nat (List.length instances))) ;;;
      print ("Unique AMIs in use: "
             ++ str_of_int (Z.of_nat (List.length ami_ids))) ;;;
      print (nl ++ "EC2 INSTANCES:") ;;;
      print (str_repeat "-"%char 80) ;;;
      print (ljust "Instance ID" 20 ++ " " ++ ljust "Instance Type" 15 ++ " "
             ++ ljust "AMI ID" 15 ++ " " ++ ljust "Launch Time" 20) ;;;
      print (str_repeat "-"%char 80) ;;;
      for_each instances (fun i => print (instance_row R i)) ;;;
      print (nl ++ "AMI INFORMATION:") ;;;
      print (str_repeat "-"%char 80) ;;;
      print (ljust "AMI ID" 15 ++ " " ++ ljust "AMI Name" 30 ++ " "
             ++ ljust "Created" 20 ++ " " ++ ljust "Age (days)" 10) ;;;
      print (str_repeat "-"%char 80) ;;;
      for_each (sorted ami_ids) (fun ami_id => print (ami_row ami_info ami_id)) ;;;
      rotation_section ami_info
  end.

End check_ami.

(* ================================================================== *)
(** ** latest_ami.py *)

(** The built-in [max(xs, key=key)]: the key of each element is computed
    once, in order, and an element replaces the running maximum only when
    its key is greater ([>]) than the maximum's. *)
Fixpoint max_loop {A} (key : A -> outcome datetime) (xs : list A)
    (maxitem : A) (maxval : datetime) : outcome A :=
  match xs with
  | [] => Return maxitem
  | item :: rest =>
      match key item with
      | Raise e => Raise e
      | Return val =>
          match datetime_gt val maxval with
          | Raise e => Raise e
          | Return true => max_loop key rest item val
          | Return false => max_loop key rest maxitem maxval
          end
      end
  end.

Definition max_by_key {A} (key : A -> outcome datetime) (xs : list A)
  : outcome A :=
  match xs with
  | [] => Raise (Exception "max() arg is an empty sequence")
  | item :: rest =>
      match key item with
      | Raise e => Raise e
      | Return val => max_loop key rest item val
      end
  end.

Module latest_ami.

(** Defaults of [--name-pattern] and [--owner]. *)
Definition default_name_pattern : string := "*company-abc*".
Definition default_owner : string := "self".

Definition get_latest_ami (R : runtime) (region name_pattern owner : string)
  : M (option image) :=
  try_except
    (let filters := [("name", [name_pattern]); ("state", ["available"])] in
     images <- call_api (DescribeImagesFiltered region [owner] filters)
                        (describe_images_filtered R region [owner] filters) ;;
     match images with
     | [] => ret None
     | _ :: _ =>
         latest <- lift (max_by_key
                           (fun x => parse_creation_date R (CreationDate x))
                           images) ;;
         ret (Some latest)
     end)
    (fun e =>
       print ("Error fetching AMI information: " ++ exn_str e) ;;;
       ret None).

(** The line printed for one block-device mapping, if it has an [Ebs] key. *)
Definition mapping_row (mapping : block_device_mapping) : M unit :=
  match Ebs mapping with
  | Some e =>
      print ("  " ++ DeviceName mapping ++ ": "
             ++ match VolumeSize e with
                | Some n => str_of_int n | None => "N/A" end
             ++ "GB ("
             ++ match VolumeType e with Some t => t | None => "N/A" end
             ++ ") "
             ++ (if match Encrypted e with Some b => b | None => false end
                 then "Encrypted" else "Not Encrypted"))
  | None => ret tt
  end.

Definition format_ami_info (R : runtime) (ami : image) : M unit :=
  created <- lift (parse_creation_date R (CreationDate ami)) ;;
  t <- now R ;;
  age <- lift (days_between t created) ;;
  print "Latest AMI Found:" ;;;
  print "==================" ;;;
  print ("AMI ID:          " ++ ImageId ami) ;;;
  nm <- lift (match Name ami with
              | Some n => Return n | None => key_error "Name" end) ;;
  print ("Name:            " ++ nm) ;;;
  print ("Description:     "
         ++ match Description ami with Some d => d | None => "N/A" end) ;;;
  print ("Owner ID:        " ++ OwnerId ami) ;;;
  print ("Architecture:    " ++ Architecture ami) ;;;
  print ("Root Device:     " ++ RootDeviceType ami) ;;;
  print ("Virtualization:  " ++ VirtualizationType ami) ;;;
  print ("State:           " ++ State ami) ;;;
  print ("Created:         " ++ strftime R created "%Y-%m-%d %H:%M:%S UTC") ;;;
  print ("Age:             " ++ str_of_int age ++ " days") ;;;
  match Tags ami with
  | Some ((_ :: _) as tags) =>
      print "Tags:" ;;;
      for_each tags (fun tg => print ("  " ++ Key tg ++ ": " ++ Value tg))
  | _ => ret tt
  end ;;;
  print (nl ++ "Block Device Mappings:") ;;;
  for_each (match BlockDeviceMappings ami with Some l => l | None => [] end)
           mapping_row.

(** An image record is a dictionary with keys, so [if latest_ami:] tests
    for [None] only. *)
Definition main (R : runtime) (region name_pattern owner : string) : M unit :=
  print ("Searching for latest AMI in region: " ++ region) ;;;
  print ("Name pattern: " ++ name_pattern) ;;;
  print ("Owner: " ++ owner) ;;;
  print (str_repeat "="%char 50) ;;;
  latest <- get_latest_ami R region name_pattern owner ;;
  match latest with
  | Some ami =>
      format_ami_info R ami ;;;
      created <- lift (parse_creation_date R (CreationDate ami)) ;;
      t <- now R ;;
      age <- lift (days_between t created) ;;
      if age >? 90
      then
        print (nl ++ "⚠️  WARNING: This AMI is " ++ str_of_int age
               ++ " days old (>90 days)") ;;;
        print "Consider updating to a newer AMI for security compliance."
      else
        print (nl ++ "✅ AMI is within 90-day rotation policy ("
               ++ str_of_int age ++ " days old)")
  | None =>
      print "No AMI found matching the specified criteria." ;;;
      print (nl ++ "Possible reasons:") ;;;
      print "- No AMIs with the specified name pattern exist" ;;;
      print "- AMIs might be owned by a different account" ;;;
      print "- AMIs might be in a different region" ;;;
      print "- AMIs might be in 'pending' or 'failed' state"
  end.

End latest_ami.

(* ================================================================== *)
(** ** Vocabulary of the statements *)

(** The key of [x] is the aware instant [t]. *)
Definition key_at {A} (key : A -> outcome datetime) (x : A) (t : Z) : Prop :=
  key x = Return (mkDatetime t true).

Definition all_keyed {A} (key : A -> outcome datetime) (xs : list A) : Prop :=
  Forall (fun x => exists t, key_at key x t) xs.

(** [best] is the first element of [xs] whose key [tb] is the greatest:
    the keys before it are smaller, the keys after it are not greater. *)
Definition first_max {A} (key : A -> outcome datetime)
    (xs : list A) (best : A) (tb : Z) : Prop :=
  exists pre post,
    xs = (pre ++ best :: post)%list /\ key_at key best tb /\
    (forall x t, In x pre -> key_at key x t -> t < tb) /\
    (forall x t, In x post -> key_at key x t -> t <= tb).

(** The key by which [get_latest_ami] compares images. *)
Definition image_key (R : runtime) (x : image) : outcome datetime :=
  parse_creation_date R (CreationDate x).

(** The filters [get_latest_ami] sends. *)
Definition latest_filters (name_pattern : string) : list (string * list string) :=
  [("name", [name_pattern]); ("state", ["available"])].

(** The world after the one request of [latest_ami.get_latest_ami], when
    nothing was printed. *)
Definition after_lookup (region name_pattern owner : string) : world :=
  mkWorld [] [DescribeImagesFiltered region [owner] (latest_filters name_pattern)] 0.

(** [list(set(xs))] enumerates each distinct element once, in some order. *)
Definition set_order_ok (R : runtime) : Prop :=
  forall xs, NoDup xs -> Permutation (set_order R xs) xs.

(** The parts of the report of [check_ami.main]. *)
Definition banner_A (region : string) : list string :=
  ["Checking EC2 instances in region: " ++ region; str_repeat "="%char 50].

Definition no_instances_line : string :=
  "No EC2 instances found or error occurred.".

Definition ami_ids_of (R : runtime) (instances : list instance) : list string :=
  list_of_set R (map instance_ImageId instances).

Definition unique_amis_line (n : nat) : string :=
  "Unique AMIs in use: " ++ str_of_int (Z.of_nat n).

Definition summary_lines (instances : list instance) (ami_ids : list string)
  : list string :=
  [nl ++ "SUMMARY:";
   "Total EC2 instances: " ++ str_of_int (Z.of_nat (List.length instances));
   unique_amis_line (List.length ami_ids)].

Definition instance_table (R : runtime) (instances : list instance)
  : list string :=
  [nl ++ "EC2 INSTANCES:";
   str_repeat "-"%char 80;
   ljust "Instance ID" 20 ++ " " ++ ljust "Instance Type" 15 ++ " "
   ++ ljust "AMI ID" 15 ++ " " ++ ljust "Launch Time" 20;
   str_repeat "-"%char 80]
  ++ map (check_ami.instance_row R) instances.

Definition ami_table_head : list string :=
  [nl ++ "AMI INFORMATION:";
   str_repeat "-"%char 80;
   ljust "AMI ID" 15 ++ " " ++ ljust "AMI Name" 30 ++ " "
   ++ ljust "Created" 20 ++ " " ++ ljust "Age (days)" 10;
   str_repeat "-"%char 80].

Definition ami_table_rows (ami_ids : list string)
    (ami_info : dict check_ami.ami_entry) : list string :=
  map (check_ami.ami_row ami_info) (sorted ami_ids).

(** The row of an image without metadata. *)
Definition unknown_row (ami_id : string) : string :=
  ljust ami_id 15 ++ " " ++ ljust "Unknown" 30 ++ " "
  ++ ljust "Unknown" 20 ++ " " ++ ljust "Unknown" 10.

Definition expired_entries (ami_info : dict check_ami.ami_entry)
  : dict check_ami.ami_entry :=
  filter (fun kv => check_ami.age_days (snd kv) >? 90) ami_info.

Definition warning_text (kv : string * check_ami.ami_entry) : string :=
  "  - " ++ fst kv ++ ": " ++ check_ami.name (snd kv)
  ++ " (" ++ str_of_int (check_ami.age_days (snd kv)) ++ " days old)".

Definition compliance_line : string :=
  nl ++ "✅ All AMIs are within the 90-day rotation policy.".

Definition rotation_lines (ami_info : dict check_ami.ami_entry) : list string :=
  match expired_entries ami_info with
  | [] => [compliance_line]
  | (_ :: _) as old =>
      [nl ++ "⚠️  AMI ROTATION WARNING:";
       "The following AMIs are older than 90 days and should be rotated:"]
      ++ map warning_text old
  end.

Definition report_lines (R : runtime) (instances : list instance)
    (ami_info : dict check_ami.ami_entry) : list string :=
  summary_lines instances (ami_ids_of R instances)
  ++ instance_table R instances
  ++ ami_table_head
  ++ ami_table_rows (ami_ids_of R instances) ami_info
  ++ rotation_lines ami_info.

(** The parts of the output of [latest_ami.main]. *)
Definition banner_B (region name_pattern owner : string) : list string :=
  ["Searching for latest AMI in region: " ++ region;
   "Name pattern: " ++ name_pattern;
   "Owner: " ++ owner;
   str_repeat "="%char 50].

Definition no_ami_lines : list string :=
  ["No AMI found matching the specified criteria.";
   nl ++ "Possible reasons:"].

Definition reason_lines : list string :=
  ["- No AMIs with the specified name pattern exist";
   "- AMIs might be owned by a different account";
   "- AMIs might be in a different region";
   "- AMIs might be in 'pending' or 'failed' state"].

(** The world after one read of the clock. *)
Definition ticked (w : world) : world :=
  mkWorld (stdout w) (api_log w) (S (clock_reads w)).

Definition detail_lines (R : runtime) (ami : image) (nm : string)
    (created : datetime) (age : Z) : list string :=
  ["Latest AMI Found:";
   "==================";
   "AMI ID:          " ++ ImageId ami;
   "Name:            " ++ nm;
   "Description:     "
   ++ match Description ami with Some d => d | None => "N/A" end;
   "Owner ID:        " ++ OwnerId ami;
   "Architecture:    " ++ Architecture ami;
   "Root Device:     " ++ RootDeviceType ami;
   "Virtualization:  " ++ VirtualizationType ami;
   "State:           " ++ State ami;
   "Created:         " ++ strftime R created "%Y-%m-%d %H:%M:%S UTC";
   "Age:             " ++ str_of_int age ++ " days"].

Definition tag_lines (ami : image) : list string :=
  match Tags ami with
  | Some ((_ :: _) as tags) =>
      "Tags:" :: map (fun tg => "  " ++ Key tg ++ ": " ++ Value tg) tags
  | _ => []
  end.

Definition mappings_of (ami : image) : list block_device_mapping :=
  match BlockDeviceMappings ami with Some l => l | None => [] end.

(** The columns of a block-device line, in the words of the specification:
    the size or [N/A], the type or [N/A], and a label that reads
    [Encrypted] only for a flag that is present and true. *)
Definition size_text (e : ebs) : string :=
  match VolumeSize e with Some n => str_of_int n | None => "N/A" end.

Definition type_text (e : ebs) : string :=
  match VolumeType e with Some t => t | None => "N/A" end.

Definition encryption_label (e : ebs) : string :=
  match Encrypted e with Some true => "Encrypted" | _ => "Not Encrypted" end.

Definition ebs_line (device_name : string) (e : ebs) : string :=
  "  " ++ device_name ++ ": " ++ size_text e ++ "GB (" ++ type_text e ++ ") "
  ++ encryption_label e.

(** The mappings that carry an [Ebs] part, in order. *)
Definition ebs_mappings (ami : image) : list (string * ebs) :=
  flat_map (fun m => match Ebs m with
                     | Some e => [(DeviceName m, e)]
                     | None => []
                     end)
           (mappings_of ami).

Definition mapping_lines (ami : image) : list string :=
  map (fun p => ebs_line (fst p) (snd p)) (ebs_mappings ami).

(** The claim that every mapping has a line: some printed line starts with
    the indented device name. *)
Definition every_mapping_rendered (ami : image) (out : list string) : Prop :=
  forall m,
    In m (mappings_of ami) ->
    exists line,
      In line out /\ String.prefix ("  " ++ DeviceName m ++ ": ") line = true.

(* ================================================================== *)
(** ** A sample runtime

    A stand-in for the service and the library, used to run the scripts on
    concrete data.  Its clock stands at 2024-06-01 00:00:00 UTC; its
    [fromisoformat] knows three dates and rejects every other string. *)

Definition sample_now : Z := 1717200000000000.

Definition sample_fromisoformat (s : string) : outcome datetime :=
  if (s =? "2024-01-01T00:00:00.000+00:00")%string
  then Return (mkDatetime 1704067200000000 true)
  else if (s =? "2024-03-01T00:00:00.000+00:00")%string
  then Return (mkDatetime 1709251200000000 true)
  else if (s =? "2024-05-01T00:00:00.000+00:00")%string
  then Return (mkDatetime 1714521600000000 true)
  else Raise (Exception ("Invalid isoformat string: '" ++ s ++ "'")).

Definition sample_strftime (d : datetime) (fmt : string) : string :=
  (if instant d =? 1704067200000000 then "2024-01-01 00:00:00"
   else if instant d =? 1709251200000000 then "2024-03-01 00:00:00"
   else if instant d =? 1714521600000000 then "2024-05-01 00:00:00"
   else "2024-06-01 00:00:00")
  ++ (if (fmt =? "%Y-%m-%d %H:%M:%S UTC")%string then " UTC" else "").

Definition sample_runtime
    (instances_answer : outcome (list reservation))
    (images_answer : list string -> outcome (list image))
    (filtered_answer : outcome (list image)) : runtime :=
  mkRuntime (fun _ => instances_answer)
            (fun _ ids => images_answer ids)
            (fun _ _ _ => filtered_answer)
            (fun _ => sample_now)
            sample_fromisoformat
            sample_strftime
            (fun xs => rev xs).

Definition sample_image (id : string) (nm : option string) (created : string)
    (mappings : option (list block_device_mapping)) : image :=
  mkImage id nm None "123456789012" "x86_64" "ebs" "hvm" "available" created
          (Some [mkTag "Team" "platform"; mkTag "Env" "prod"]) mappings.

Definition image_jan : image :=
  sample_image "ami-0aaa" (Some "company-abc-base-1") "2024-01-01T00:00:00.000Z"
    (Some [mkMapping "/dev/xvda" (Some (mkEbs (Some 8) (Some "gp3") (Some true)));
           mkMapping "/dev/sdb" None;
           mkMapping "/dev/sdf" (Some (mkEbs None None None))]).

Definition image_mar : image :=
  sample_image "ami-0bbb" (Some "company-abc-base-2") "2024-03-01T00:00:00.000Z"
    (Some [mkMapping "/dev/xvda" (Some (mkEbs (Some 30) (Some "gp2") (Some false)))]).

Definition image_may : image :=
  sample_image "ami-0ccc" None "2024-05-01T00:00:00.000Z" None.

Definition sample_instance (id ami state : string) : instance :=
  mkInstance id "t3.micro" ami (mkDatetime 1714521600000000 true) state.

Definition sample_reservations : list reservation :=
  [mkReservation [sample_instance "i-01" "ami-0ccc" "running";
                  sample_instance "i-02" "ami-0aaa" "terminated";
                  sample_instance "i-03" "ami-0bbb" "stopped"];
   mkReservation [sample_instance "i-04" "ami-0ccc" "running";
                  sample_instance "i-05" "ami-0ddd" "pending"]].

(** The service knows three images; [ami-0ddd] is deregistered. *)
Definition sample_images (ids : list string) : outcome (list image) :=
  Return (filter (fun img => existsb (String.eqb (ImageId img)) ids)
                 [image_jan; image_mar; image_may]).

Definition service_error : exn :=
  Exception "An error occurred (UnauthorizedOperation)".

(** A region where every request succeeds, one where every request fails
    and one whose lookup finds the two older images. *)
Definition sample_R : runtime :=
  sample_runtime (Return sample_reservations) sample_images (Return []).

Definition failing_R : runtime :=
  sample_runtime (Raise service_error) (fun _ => Raise service_error)
                 (Raise service_error).

Definition lookup_R : runtime :=
  sample_runtime (Return []) sample_images (Return [image_jan; image_mar]).

(** The instances the sample run retains and the metadata it fetches. *)
Definition sample_instances : list instance :=
  [sample_instance "i-01" "ami-0ccc" "running";
   sample_instance "i-03" "ami-0bbb" "stopped";
   sample_instance "i-04" "ami-0ccc" "running";
   sample_instance "i-05" "ami-0ddd" "pending"].

Definition sample_ami_info : dict check_ami.ami_entry :=
  [("ami-0bbb",
    check_ami.mkEntry "company-abc-base-2" (mkDatetime 1709251200000000 true)
                      "2024-03-01 00:00:00 UTC" 92);
   ("ami-0ccc",
    check_ami.mkEntry "Unknown" (mkDatetime 1714521600000000 true)
                      "2024-05-01 00:00:00 UTC" 31)].

Definition sample_w1 : world :=
  logged (DescribeInstances "eu-west-1") (emit (banner_A "eu-west-1") init_world).

Definition sample_w2 : world :=
  mkWorld (stdout sample_w1)
          (api_log sample_w1
           ++ [DescribeImages "eu-west-1" ["ami-0ddd"; "ami-0ccc"; "ami-0bbb"]])
          2.

(* ================================================================== *)
(** ** Vocabulary of the further statements *)

(** The diagnostic of a failed image request. *)
Definition ami_error_line (e : exn) : string :=
  "Error fetching AMI information: " ++ exn_str e.

(** The entry [get_ami_info] stores for an image created at [created] when
    the clock reads [t]. *)
Definition entry_at (R : runtime) (img : image) (created : datetime) (t : Z)
  : check_ami.ami_entry :=
  check_ami.mkEntry
    (match Name img with Some n => n | None => "Unknown" end)
    created
    (strftime R created "%Y-%m-%d %H:%M:%S UTC")
    ((t - instant created) / microseconds_per_day).

(** The entries of a list of images, in order, the first one stored at the
    [n]-th read of the clock and each later one at the next read. *)
Fixpoint expected_entries (R : runtime) (imgs : list image) (n : nat)
  : dict check_ami.ami_entry :=
  match imgs with
  | [] => []
  | img :: rest =>
      match parse_creation_date R (CreationDate img) with
      | Return created =>
          (ImageId img, entry_at R img created (clock R n))
          :: expected_entries R rest (S n)
      | Raise _ => []
      end
  end.


(** The clock never runs backwards. *)
Definition clock_monotone (R : runtime) : Prop :=
  forall m n, (m <= n)%nat -> clock R m <= clock R n.

(** The closing verdict of [latest_ami.main] for an age in days. *)
Definition verdict_lines (age : Z) : list string :=
  if age >? 90
  then [nl ++ "⚠️  WARNING: This AMI is " ++ str_of_int age
           ++ " days old (>90 days)";
        "Consider updating to a newer AMI for security compliance."]
  else [nl ++ "✅ AMI is within 90-day rotation policy ("
           ++ str_of_int age ++ " days old)"].

(** [c in s]. *)
Fixpoint str_has (c : ascii) (s : string) : bool :=
  match s with
  | EmptyString => false
  | String a rest => Ascii.eqb a c || str_has c rest
  end.



(** Further sample data: a record with a malformed date, a service that
    returns it among others, a service whose image request fails and a
    lookup that finds an image without a name. *)
Definition image_bad : image :=
  sample_image "ami-0eee" (Some "company-abc-broken") "yesterday" None.

Definition bad_R : runtime :=
  sample_runtime (Return [])
                 (fun _ => Return [image_mar; image_bad; image_may])
                 (Return [image_jan; image_bad; image_mar]).

Definition no_metadata_R : runtime :=
  sample_runtime (Return sample_reservations) (fun _ => Raise service_error)
                 (Return []).

Definition nameless_R : runtime :=
  sample_runtime (Return []) sample_images (Return [image_may]).

(* ================================================================== *)
(** * Properties *)

(** ** The monad *)

Lemma emit_emit (l1 l2 : list string) (w : world) :
  emit l2 (emit l1 w) = emit (l1 ++ l2) w.
Proof. unfold emit; simpl. now rewrite app_assoc. Qed.

Lemma emit_nil (w : world) : emit [] w = w.
Proof. destruct w; unfold emit; simpl. now rewrite app_nil_r. Qed.

Lemma print_run (s : string) (w : world) : print s w = (Return tt, emit [s] w).
Proof. reflexivity. Qed.

Lemma for_each_print {A} (f : A -> string) (xs : list A) (w : world) :
  for_each xs (fun x => print (f x)) w = (Return tt, emit (map f xs) w).
Proof.
  revert w; induction xs as [|x xs IH]; intros w; simpl.
  - unfold ret. now rewrite emit_nil.
  - unfold bind. rewrite print_run, IH, emit_emit. reflexivity.
Qed.

#[local] Opaque print.

(** ** [max] with a key *)

Section MaxByKey.
Context {A : Type} (key : A -> outcome datetime).

Lemma key_at_fun x t t' : key_at key x t -> key_at key x t' -> t = t'.
Proof. unfold key_at; intros H H'; rewrite H in H'; now inversion H'. Qed.

Lemma max_loop_cons x xs m tm t :
  key_at key x t ->
  max_loop key (x :: xs) m (mkDatetime tm true) =
  if t >? tm then max_loop key xs x (mkDatetime t true)
  else max_loop key xs m (mkDatetime tm true).
Proof. intros Hx. simpl. rewrite Hx. reflexivity. Qed.

Lemma max_loop_spec (xs : list A) :
  all_keyed key xs ->
  forall m tm,
    (max_loop key xs m (mkDatetime tm true) = Return m /\
     forall x t, In x xs -> key_at key x t -> t <= tm)
    \/ exists best tb,
         max_loop key xs m (mkDatetime tm true) = Return best /\
         first_max key xs best tb /\ tm < tb.
Proof.
  induction 1 as [|x xs [t Hx] Hxs IH]; intros m tm.
  - left; split; [reflexivity | intros ? ? []].
  - rewrite (max_loop_cons x xs m tm t Hx).
    destruct (Z.gtb_spec t tm) as [Hgt | Hle].
    + right. destruct (IH x t) as [[Hr Hall] | (best & tb & Hr & Hfm & Hlt)].
      * exists x, t. split; [exact Hr | split; [|lia]].
        exists [], xs. repeat split; auto. intros ? ? [].
      * exists best, tb. split; [exact Hr | split; [|lia]].
        destruct Hfm as (pre & post & -> & Hb & Hpre & Hpost).
        exists (x :: pre), post. repeat split; auto.
        intros y ty [<- | Hy] Hk; [| eauto].
        rewrite (key_at_fun _ _ _ Hk Hx). lia.
    + destruct (IH m tm) as [[Hr Hall] | (best & tb & Hr & Hfm & Hlt)].
      * left. split; [exact Hr|].
        intros y ty [<- | Hy] Hk; [| eauto].
        rewrite (key_at_fun _ _ _ Hk Hx). lia.
      * right. exists best, tb. split; [exact Hr | split; [|lia]].
        destruct Hfm as (pre & post & -> & Hb & Hpre & Hpost).
        exists (x :: pre), post. repeat split; auto.
        intros y ty [<- | Hy] Hk; [| eauto].
        rewrite (key_at_fun _ _ _ Hk Hx). lia.
Qed.

Lemma max_by_key_spec (xs : list A) :
  xs <> [] -> all_keyed key xs ->
  exists best tb, max_by_key key xs = Return best /\ first_max key xs best tb.
Proof.
  destruct xs as [|x xs]; [congruence | intros _ Hall].
  inversion Hall as [|? ? [t Hx] Hxs]; subst.
  simpl. rewrite Hx.
  destruct (max_loop_spec xs Hxs x t) as [[Hr Hle] | (best & tb & Hr & Hfm & Hlt)].
  - exists x, t. split; [exact Hr|].
    exists [], xs. repeat split; auto. intros ? ? [].
  - exists best, tb. split; [exact Hr|].
    destruct Hfm as (pre & post & -> & Hb & Hpre & Hpost).
    exists (x :: pre), post. repeat split; auto.
    intros y ty [<- | Hy] Hk; [| eauto].
    rewrite (key_at_fun _ _ _ Hk Hx). lia.
Qed.
End MaxByKey.

(** ** latest_ami.py: the lookup *)

Lemma get_latest_ami_run R region pat owner w :
  latest_ami.get_latest_ami R region pat owner w =
  let w1 := logged (DescribeImagesFiltered region [owner] (latest_filters pat)) w in
  match describe_images_filtered R region [owner] (latest_filters pat) with
  | Return [] => (Return None, w1)
  | Return (x :: xs) =>
      match max_by_key (image_key R) (x :: xs) with
      | Return best => (Return (Some best), w1)
      | Raise e =>
          (Return None, emit ["Error fetching AMI information: " ++ exn_str e] w1)
      end
  | Raise e =>
      (Return None, emit ["Error fetching AMI information: " ++ exn_str e] w1)
  end.
Proof.
  unfold latest_ami.get_latest_ami, try_except, bind, call_api, latest_filters.
  destruct (describe_images_filtered R region [owner] _) as [[|x xs]|e]; cbv zeta.
  - reflexivity.
  - unfold lift, image_key.
    destruct (max_by_key _ (x :: xs)) as [best|e]; [reflexivity|].
    rewrite print_run. reflexivity.
  - rewrite print_run. reflexivity.
Qed.

(** C1.  When the filtered query answers with image records whose creation
    dates parse to aware instants, [get_latest_ami] returns nothing for an
    empty answer and otherwise the first record, in the order of the
    answer, whose creation instant is the greatest: the instants before
    it are smaller and those after it are not greater.  Of two records
    created at T1 < T2, in either order, the one created at T2 is
    returned.  Nothing is printed. *)
Theorem get_latest_ami_selects_latest :
  forall R region pat owner images,
    describe_images_filtered R region [owner] (latest_filters pat) = Return images ->
    all_keyed (image_key R) images ->
    (images = [] ->
     latest_ami.get_latest_ami R region pat owner init_world
     = (Return None, after_lookup region pat owner))
    /\ (images <> [] ->
        exists best tb,
          first_max (image_key R) images best tb /\
          latest_ami.get_latest_ami R region pat owner init_world
          = (Return (Some best), after_lookup region pat owner))
    /\ (forall a b T1 T2,
          images = [a; b] \/ images = [b; a] ->
          key_at (image_key R) a T1 -> key_at (image_key R) b T2 -> T1 < T2 ->
          latest_ami.get_latest_ami R region pat owner init_world
          = (Return (Some b), after_lookup region pat owner)).
Proof.
  intros R region pat owner images Hresp Hkeys.
  assert (Hne : images <> [] ->
      exists best tb,
        first_max (image_key R) images best tb /\
        latest_ami.get_latest_ami R region pat owner init_world
        = (Return (Some best), after_lookup region pat owner)).
  { intros Hnil.
    destruct (max_by_key_spec (image_key R) images Hnil Hkeys)
      as (best & tb & Hmax & Hfm).
    exists best, tb. split; [exact Hfm|].
    rewrite get_latest_ami_run, Hresp.
    destruct images as [|x xs]; [congruence|].
    cbv zeta. rewrite Hmax. reflexivity. }
  split; [|split].
  - intros ->. rewrite get_latest_ami_run, Hresp. reflexivity.
  - exact Hne.
  - intros a b T1 T2 Himgs Ha Hb Hlt.
    destruct Hne as (best & tb & (pre & post & Heq & Hbest & Hpre & Hpost) & Hrun).
    { destruct Himgs as [-> | ->]; discriminate. }
    rewrite Hrun. do 3 f_equal.
    destruct Himgs as [-> | ->].
    + destruct pre as [|p [|q pre]]; simpl in Heq.
      * injection Heq as Ea Epost. subst best post.
        assert (T2 <= tb) by (apply (Hpost b); simpl; auto).
        assert (tb = T1) by (eapply key_at_fun; eauto). lia.
      * injection Heq as _ Eb _. symmetry; exact Eb.
      * injection Heq as _ _ Enil. destruct pre; discriminate.
    + destruct pre as [|p [|q pre]]; simpl in Heq.
      * injection Heq as Eb _. symmetry; exact Eb.
      * injection Heq as Ep Ea _. subst p best.
        assert (T2 < tb) by (apply (Hpre b); simpl; auto).
        assert (tb = T1) by (eapply key_at_fun; eauto). lia.
      * injection Heq as _ _ Enil. destruct pre; discriminate.
Qed.

(** ** Dictionaries *)

Lemma dict_get_In {V} (d : dict V) (k : string) (v : V) :
  dict_get k d = Some v -> In (k, v) d.
Proof.
  induction d as [|[k' v'] d IH]; simpl; [discriminate|].
  destruct (String.eqb_spec k k') as [->|Hne].
  - intros [= ->]. now left.
  - intros H. right. auto.
Qed.

Lemma In_dict_get {V} (d : dict V) (k : string) (v : V) :
  dict_wf d -> In (k, v) d -> dict_get k d = Some v.
Proof.
  unfold dict_wf, dict_keys.
  induction d as [|[k' v'] d IH]; simpl; [intros _ []|].
  intros Hnd [Heq | Hin]; inversion Hnd as [|? ? Hnotin Hnd']; subst.
  - injection Heq as -> ->. now rewrite String.eqb_refl.
  - destruct (String.eqb_spec k k') as [->|Hne]; [|auto].
    exfalso. apply Hnotin. change k' with (fst (k', v)). now apply in_map.
Qed.

Lemma dict_get_None {V} (d : dict V) (k : string) :
  dict_get k d = None <-> ~ In k (dict_keys d).
Proof.
  unfold dict_keys.
  induction d as [|[k' v'] d IH]; simpl; [tauto|].
  destruct (String.eqb_spec k k') as [->|Hne].
  - split; [discriminate | intros H; exfalso; auto].
  - rewrite IH. split; [intros H [E|E]; [congruence | auto] | tauto].
Qed.

(** ** check_ami.py: the rotation check *)

Lemma check_ami_rotation_filter ami_info rotation_days :
  check_ami.check_ami_rotation ami_info rotation_days =
  map fst (filter (fun kv => check_ami.age_days (snd kv) >? rotation_days) ami_info).
Proof.
  induction ami_info as [|[k info] d IH]; simpl; [reflexivity|].
  destruct (check_ami.age_days info >? rotation_days); simpl; now rewrite IH.
Qed.

Lemma check_ami_rotation_In ami_info rotation_days ami_id :
  In ami_id (check_ami.check_ami_rotation ami_info rotation_days) <->
  exists info, In (ami_id, info) ami_info /\ check_ami.age_days info > rotation_days.
Proof.
  rewrite check_ami_rotation_filter, in_map_iff. split.
  - intros ([k info] & <- & Hin). apply filter_In in Hin as [Hin Hgt].
    exists info. simpl in *. split; [exact Hin | lia].
  - intros (info & Hin & Hgt). exists (ami_id, info). split; [reflexivity|].
    apply filter_In. split; [exact Hin | simpl; lia].
Qed.

Lemma check_ami_rotation_keys ami_info rotation_days ami_id :
  In ami_id (check_ami.check_ami_rotation ami_info rotation_days) ->
  In ami_id (dict_keys ami_info).
Proof.
  rewrite check_ami_rotation_In. intros (info & Hin & _).
  unfold dict_keys. change ami_id with (fst (ami_id, info)). now apply in_map.
Qed.

Lemma check_ami_rotation_NoDup ami_info rotation_days :
  dict_wf ami_info -> NoDup (check_ami.check_ami_rotation ami_info rotation_days).
Proof.
  unfold dict_wf, dict_keys.
  induction ami_info as [|[k info] d IH]; simpl; [constructor|].
  intros Hnd. inversion Hnd as [|? ? Hnotin Hnd']; subst.
  destruct (check_ami.age_days info >? rotation_days); [|auto].
  constructor; [|auto].
  intros Hin. apply Hnotin. now apply check_ami_rotation_keys in Hin.
Qed.

(** C2.  For a metadata map (one entry per identifier) and a threshold,
    [check_ami_rotation] returns, in the order of the map and without
    repetition, exactly the identifiers whose entry has an age strictly
    greater than the threshold: an identifier that is not in the map, or
    whose age equals the threshold, is not returned.  The function is a
    total function of its two arguments, and the default threshold is 90. *)
Theorem check_ami_rotation_exact :
  forall ami_info rotation_days,
    dict_wf ami_info ->
    (forall ami_id,
        In ami_id (check_ami.check_ami_rotation ami_info rotation_days) <->
        exists info, dict_get ami_id ami_info = Some info /\
                     check_ami.age_days info > rotation_days)
    /\ (forall ami_id info,
          dict_get ami_id ami_info = Some info ->
          check_ami.age_days info = rotation_days ->
          ~ In ami_id (check_ami.check_ami_rotation ami_info rotation_days))
    /\ (forall ami_id,
          dict_get ami_id ami_info = None ->
          ~ In ami_id (check_ami.check_ami_rotation ami_info rotation_days))
    /\ NoDup (check_ami.check_ami_rotation ami_info rotation_days)
    /\ check_ami.check_ami_rotation ami_info rotation_days =
       map fst (filter (fun kv => check_ami.age_days (snd kv) >? rotation_days)
                       ami_info)
    /\ check_ami.rotation_days_default = 90.
Proof.
  intros ami_info rotation_days Hwf.
  assert (Hiff : forall ami_id,
        In ami_id (check_ami.check_ami_rotation ami_info rotation_days) <->
        exists info, dict_get ami_id ami_info = Some info /\
                     check_ami.age_days info > rotation_days).
  { intros ami_id. rewrite check_ami_rotation_In. split.
    - intros (info & Hin & Hgt). exists info. split; [|exact Hgt].
      now apply In_dict_get.
    - intros (info & Hget & Hgt). exists info. split; [|exact Hgt].
      now apply dict_get_In. }
  repeat split.
  - apply Hiff.
  - apply Hiff.
  - intros ami_id info Hget Heq Hin.
    apply Hiff in Hin as (info' & Hget' & Hgt).
    rewrite Hget in Hget'. injection Hget' as <-. lia.
  - intros ami_id Hnone Hin.
    apply Hiff in Hin as (info' & Hget' & _). congruence.
  - now apply check_ami_rotation_NoDup.
  - apply check_ami_rotation_filter.
Qed.

(** C4.  Raising the threshold never adds to the expired identifiers: for
    t1 <= t2 every identifier returned at t2 is returned at t1, and the
    list at t2 is the list at t1 with some identifiers left out.  At the
    threshold 0 every image of the map with an age above 0 is returned. *)
Theorem check_ami_rotation_monotone :
  forall ami_info t1 t2,
    t1 <= t2 ->
    incl (check_ami.check_ami_rotation ami_info t2)
         (check_ami.check_ami_rotation ami_info t1)
    /\ (List.length (check_ami.check_ami_rotation ami_info t2)
        <= List.length (check_ami.check_ami_rotation ami_info t1))%nat
    /\ (forall ami_id info,
          In (ami_id, info) ami_info -> check_ami.age_days info > 0 ->
          In ami_id (check_ami.check_ami_rotation ami_info 0)).
Proof.
  intros ami_info t1 t2 Hle. split; [|split].
  - intros ami_id. rewrite !check_ami_rotation_In.
    intros (info & Hin & Hgt). exists info. split; [exact Hin | lia].
  - induction ami_info as [|[k info] d IH]; simpl; [lia|].
    destruct (Z.gtb_spec (check_ami.age_days info) t2);
      destruct (Z.gtb_spec (check_ami.age_days info) t1); simpl; lia.
  - intros ami_id info Hin Hgt. rewrite check_ami_rotation_In. eauto.
Qed.

(** ** The remote fetches never raise *)

Lemma get_ec2_instances_run R region w :
  check_ami.get_ec2_instances R region w =
  let w1 := logged (DescribeInstances region) w in
  match describe_instances R region with
  | Return response =>
      (Return (flat_map (fun r => filter check_ami.not_terminated (Instances r))
                        response), w1)
  | Raise e => (Return [], emit ["Error fetching EC2 instances: " ++ exn_str e] w1)
  end.
Proof.
  unfold check_ami.get_ec2_instances, try_except, bind, call_api.
  destruct (describe_instances R region) as [response|e]; cbv zeta.
  - reflexivity.
  - rewrite print_run. reflexivity.
Qed.

Lemma get_ami_info_run R region ami_ids w :
  ami_ids <> [] ->
  check_ami.get_ami_info R region ami_ids w =
  let w1 := logged (DescribeImages region ami_ids) w in
  match describe_images R region ami_ids with
  | Return response =>
      match check_ami.fill_ami_info R response [] w1 with
      | (ami_info, None, w2) => (Return ami_info, w2)
      | (ami_info, Some e, w2) =>
          (Return ami_info,
           emit ["Error fetching AMI information: " ++ exn_str e] w2)
      end
  | Raise e =>
      (Return [], emit ["Error fetching AMI information: " ++ exn_str e] w1)
  end.
Proof.
  intros Hne. unfold check_ami.get_ami_info, call_api.
  destruct ami_ids as [|i ids]; [congruence|].
  destruct (describe_images R region (i :: ids)) as [response|e]; cbv zeta.
  - destruct (check_ami.fill_ami_info R response [] _) as [[d [e|]] w2].
    + unfold bind. rewrite print_run. reflexivity.
    + reflexivity.
  - unfold bind. rewrite print_run. reflexivity.
Qed.

Lemma get_ami_info_returns R region ami_ids w :
  exists ami_info w', check_ami.get_ami_info R region ami_ids w = (Return ami_info, w').
Proof.
  destruct ami_ids as [|i ids]; [now exists [], w|].
  rewrite get_ami_info_run by discriminate. cbv zeta.
  destruct (describe_images R region (i :: ids)) as [response|e]; [|eauto].
  destruct (check_ami.fill_ami_info R response [] _) as [[d [e|]] w2]; eauto.
Qed.


(** ** The order on strings and [sorted] *)

Lemma ascii_compare_refl (a : ascii) : Ascii.compare a a = Eq.
Proof. unfold Ascii.compare. apply N.compare_refl. Qed.

Lemma string_compare_refl (s : string) : String.compare s s = Eq.
Proof.
  induction s as [|a s IH]; simpl; [reflexivity|].
  now rewrite ascii_compare_refl.
Qed.

Lemma string_compare_lt_trans (a b c : string) :
  String.compare a b = Lt -> String.compare b c = Lt -> String.compare a c = Lt.
Proof.
  revert b c; induction a as [|x a IH]; intros [|y b] [|z c]; simpl;
    try discriminate; try reflexivity.
  destruct (Ascii.compare x y) eqn:Exy; try discriminate;
    destruct (Ascii.compare y z) eqn:Eyz; try discriminate; intros Hab Hbc.
  - apply Ascii.compare_eq_iff in Exy, Eyz. subst.
    rewrite ascii_compare_refl. eauto.
  - apply Ascii.compare_eq_iff in Exy. subst. now rewrite Eyz.
  - apply Ascii.compare_eq_iff in Eyz. subst. now rewrite Exy.
  - unfold Ascii.compare in *.
    rewrite N.compare_lt_iff in Exy, Eyz.
    assert (H : (N_of_ascii x < N_of_ascii z)%N) by lia.
    apply N.compare_lt_iff in H. now rewrite H.
Qed.

Lemma str_lt_iff (a b : string) : str_lt a b <-> String.compare a b = Lt.
Proof.
  unfold str_lt, String.ltb. destruct (String.compare a b); split;
    congruence.
Qed.

Lemma str_lt_trans (a b c : string) : str_lt a b -> str_lt b c -> str_lt a c.
Proof. rewrite !str_lt_iff. apply string_compare_lt_trans. Qed.

Lemma str_lt_irrefl (a : string) : ~ str_lt a a.
Proof. rewrite str_lt_iff, string_compare_refl. discriminate. Qed.

Lemma str_lt_total (a b : string) : a <> b -> str_lt a b \/ str_lt b a.
Proof.
  intros Hne. rewrite !str_lt_iff.
  destruct (String.compare a b) eqn:E.
  - now apply String.compare_eq_iff in E.
  - now left.
  - right. rewrite String.compare_antisym, E. reflexivity.
Qed.

Lemma insert_sorted_perm (x : string) (l : list string) :
  Permutation (insert_sorted x l) (x :: l).
Proof.
  induction l as [|y l IH]; simpl; [reflexivity|].
  destruct (String.ltb x y); [reflexivity|].
  rewrite IH. apply perm_swap.
Qed.

Lemma sorted_from_perm (xs acc : list string) :
  Permutation (fold_left (fun acc x => insert_sorted x acc) xs acc)
              (acc ++ xs)%list.
Proof.
  revert acc; induction xs as [|x xs IH]; intros acc; simpl.
  - now rewrite app_nil_r.
  - rewrite IH, insert_sorted_perm. apply Permutation_middle.
Qed.

Lemma sorted_perm (xs : list string) : Permutation (sorted xs) xs.
Proof. apply (sorted_from_perm xs []). Qed.

Lemma insert_sorted_strict (x : string) (l : list string) :
  StronglySorted str_lt l -> ~ In x l -> StronglySorted str_lt (insert_sorted x l).
Proof.
  induction 1 as [|y l Hs IH Hy]; intros Hnotin; simpl.
  - constructor; constructor.
  - destruct (String.ltb x y) eqn:E.
    + constructor; [constructor; assumption|].
      constructor; [exact E|].
      eapply Forall_impl; [|exact Hy]. intros z Hz. eapply str_lt_trans; eauto.
    + assert (Hyx : str_lt y x).
      { destruct (str_lt_total x y) as [H|H]; [| |exact H].
        - intros ->. apply Hnotin. now left.
        - unfold str_lt in H. congruence. }
      constructor.
      * apply IH. intros Hin. apply Hnotin. now right.
      * eapply Permutation_Forall; [symmetry; apply insert_sorted_perm|].
        constructor; assumption.
Qed.

Lemma sorted_from_strict (xs acc : list string) :
  StronglySorted str_lt acc -> NoDup (acc ++ xs)%list ->
  StronglySorted str_lt (fold_left (fun acc x => insert_sorted x acc) xs acc).
Proof.
  revert acc; induction xs as [|x xs IH]; intros acc Hs Hnd; simpl; [exact Hs|].
  apply NoDup_remove in Hnd as [Hnd Hnotin].
  apply IH.
  - apply insert_sorted_strict; [exact Hs|].
    intros Hin. apply Hnotin. apply in_or_app. now left.
  - apply Permutation_NoDup with (l := ((x :: acc) ++ xs)%list).
    + apply Permutation_app_tail. symmetry. apply insert_sorted_perm.
    + simpl. constructor; [exact Hnotin | exact Hnd].
Qed.

Lemma sorted_strict (xs : list string) :
  NoDup xs -> StronglySorted str_lt (sorted xs).
Proof. intros Hnd. apply sorted_from_strict; [constructor | exact Hnd]. Qed.

Lemma strictly_sorted_unique (l1 l2 : list string) :
  StronglySorted str_lt l1 -> StronglySorted str_lt l2 ->
  Permutation l1 l2 -> l1 = l2.
Proof.
  intros H1; revert l2; induction H1 as [|a l1 Hs1 IH Ha]; intros l2 H2 Hp.
  - apply Permutation_nil in Hp. now subst.
  - destruct H2 as [|b l2 Hs2 Hb].
    + symmetry in Hp. now apply Permutation_nil in Hp.
    + assert (Hab : a = b).
      { assert (Hina : In a (b :: l2))
          by (eapply Permutation_in; [exact Hp | now left]).
        assert (Hinb : In b (a :: l1))
          by (eapply Permutation_in; [symmetry; exact Hp | now left]).
        destruct Hina as [E | Hina]; [now symmetry|].
        destruct Hinb as [E | Hinb]; [exact E|].
        rewrite Forall_forall in Ha, Hb.
        exfalso. apply (str_lt_irrefl a).
        eapply str_lt_trans; [apply Ha; exact Hinb | apply Hb; exact Hina]. }
      subst b. f_equal. apply IH; [exact Hs2|].
      eapply Permutation_cons_inv; exact Hp.
Qed.

(** ** Running sequences of statements *)

Lemma bind_run {A B} (m : M A) (k : A -> M B) (w w' : world) (a : A) :
  m w = (Return a, w') -> bind m k w = k a w'.
Proof. intros H. unfold bind. now rewrite H. Qed.

Lemma bind_print {B} (s : string) (k : unit -> M B) (w : world) :
  bind (print s) k w = k tt (emit [s] w).
Proof. apply bind_run, print_run. Qed.

Lemma bind_for_each_print {A B} (f : A -> string) (xs : list A)
    (k : unit -> M B) (w : world) :
  bind (for_each xs (fun x => print (f x))) k w = k tt (emit (map f xs) w).
Proof. apply bind_run, for_each_print. Qed.

(** ** check_ami.py: the metadata map is a map *)

Lemma dict_wf_nil {V} : dict_wf (@nil (string * V)).
Proof. constructor. Qed.

Lemma dict_set_keys {V} (k : string) (v : V) (d : dict V) :
  dict_keys (dict_set k v d) =
  if dict_mem k d then dict_keys d else (dict_keys d ++ [k])%list.
Proof.
  unfold dict_mem, dict_keys.
  induction d as [|[k' v'] d IH]; simpl; [reflexivity|].
  destruct (String.eqb_spec k k') as [->|Hne]; simpl; [reflexivity|].
  rewrite IH. now destruct (dict_get k d).
Qed.

Lemma dict_set_wf {V} (k : string) (v : V) (d : dict V) :
  dict_wf d -> dict_wf (dict_set k v d).
Proof.
  unfold dict_wf. rewrite dict_set_keys. unfold dict_mem.
  destruct (dict_get k d) eqn:E; [trivial|].
  intros Hnd. apply dict_get_None in E.
  eapply Permutation_NoDup; [apply Permutation_cons_append|].
  now constructor.
Qed.

Lemma fill_ami_info_wf R images :
  forall d w d' e w',
    dict_wf d -> check_ami.fill_ami_info R images d w = (d', e, w') -> dict_wf d'.
Proof.
  induction images as [|img images IH]; intros d w d' e w' Hwf; simpl.
  - now intros [= <- _ _].
  - destruct (check_ami.ami_entry_of R img w) as [[entry|ex] w1].
    + apply IH. now apply dict_set_wf.
    + now intros [= <- _ _].
Qed.

Lemma get_ami_info_wf R region ami_ids w ami_info w' :
  check_ami.get_ami_info R region ami_ids w = (Return ami_info, w') ->
  dict_wf ami_info.
Proof.
  destruct ami_ids as [|i ids].
  - intros [= <- _]. apply dict_wf_nil.
  - rewrite get_ami_info_run by discriminate. cbv zeta.
    destruct (describe_images R region (i :: ids)) as [response|e].
    + destruct (check_ami.fill_ami_info R response [] _) as [[d oe] w2] eqn:E.
      assert (dict_wf d) by (eapply fill_ami_info_wf; [apply dict_wf_nil | exact E]).
      destruct oe; now intros [= <- _].
    + intros [= <- _]. apply dict_wf_nil.
Qed.

(** ** check_ami.py: the closing section *)

Lemma check_ami_rotation_expired ami_info :
  check_ami.check_ami_rotation ami_info check_ami.rotation_days_default
  = map fst (expired_entries ami_info).
Proof. apply check_ami_rotation_filter. Qed.

Lemma warning_rows_run ami_info (l : dict check_ami.ami_entry) (w : world) :
  (forall kv, In kv l -> dict_get (fst kv) ami_info = Some (snd kv)) ->
  for_each (map fst l) (check_ami.warning_row ami_info) w
  = (Return tt, emit (map warning_text l) w).
Proof.
  revert w; induction l as [|[k info] l IH]; intros w Hl; simpl.
  - unfold ret. now rewrite emit_nil.
  - pose proof (Hl (k, info) (or_introl eq_refl)) as Hk. simpl in Hk.
    unfold check_ami.warning_row at 1, dict_item, lift.
    rewrite Hk.
    unfold bind at 1. unfold bind at 1. rewrite print_run.
    rewrite IH by (intros kv Hkv; apply Hl; now right).
    rewrite emit_emit. reflexivity.
Qed.

Lemma rotation_section_run ami_info (w : world) :
  dict_wf ami_info ->
  check_ami.rotation_section ami_info w
  = (Return tt, emit (rotation_lines ami_info) w).
Proof.
  intros Hwf. unfold check_ami.rotation_section, rotation_lines.
  rewrite check_ami_rotation_expired.
  assert (Hl : forall kv, In kv (expired_entries ami_info) ->
                          dict_get (fst kv) ami_info = Some (snd kv)).
  { intros [k info] Hin. apply filter_In in Hin as [Hin _].
    now apply In_dict_get. }
  destruct (expired_entries ami_info) as [|kv l] eqn:E; cbv zeta.
  - simpl map. apply print_run.
  - change (map fst (kv :: l)) with (fst kv :: map fst l).
    cbv iota beta.
    change (fst kv :: map fst l) with (map fst (kv :: l)).
    rewrite !bind_print, warning_rows_run by exact Hl.
    rewrite !emit_emit. reflexivity.
Qed.

(** ** check_ami.py: the whole run *)

Lemma main_A_start R region :
  check_ami.main R region init_world =
  match check_ami.get_ec2_instances R region (emit (banner_A region) init_world) with
  | (Return [], w1) => (Return tt, emit [no_instances_line] w1)
  | (Return (i :: rest), w1) =>
      match check_ami.get_ami_info R region (ami_ids_of R (i :: rest)) w1 with
      | (Return ami_info, w2) =>
          (Return tt, emit (report_lines R (i :: rest) ami_info) w2)
      | (Raise e, w2) => (Raise e, w2)
      end
  | (Raise e, w1) => (Raise e, w1)
  end.
Proof.
  unfold check_ami.main. rewrite !bind_print, emit_emit.
  change ([_] ++ [_])%list with (banner_A region).
  unfold bind at 1.
  destruct (check_ami.get_ec2_instances R region _) as [[[|i rest]|e] w1];
    [apply print_run | | reflexivity].
  fold (ami_ids_of R (i :: rest)).
  unfold bind at 1.
  destruct (check_ami.get_ami_info R region _ w1) as [[ami_info|e] w2] eqn:E;
    [|reflexivity].
  apply get_ami_info_wf in E.
  rewrite !bind_print, bind_for_each_print, !bind_print, bind_for_each_print.
  rewrite rotation_section_run by exact E.
  rewrite !emit_emit. unfold report_lines, summary_lines, instance_table,
    ami_table_head, ami_table_rows, unique_amis_line.
  reflexivity.
Qed.

Lemma main_A_no_instances R region w1 :
  check_ami.get_ec2_instances R region (emit (banner_A region) init_world)
  = (Return [], w1) ->
  check_ami.main R region init_world = (Return tt, emit [no_instances_line] w1).
Proof. intros H. now rewrite main_A_start, H. Qed.

Lemma main_A_report R region instances w1 ami_info w2 :
  check_ami.get_ec2_instances R region (emit (banner_A region) init_world)
  = (Return instances, w1) ->
  instances <> [] ->
  check_ami.get_ami_info R region (ami_ids_of R instances) w1
  = (Return ami_info, w2) ->
  check_ami.main R region init_world
  = (Return tt, emit (report_lines R instances ami_info) w2).
Proof.
  intros H1 Hne H2. rewrite main_A_start, H1.
  destruct instances as [|i rest]; [congruence|]. now rewrite H2.
Qed.

(** ** check_ami.py: the identifiers of the images in use *)

Lemma ami_ids_perm R instances :
  set_order_ok R ->
  Permutation (ami_ids_of R instances) (dedup (map instance_ImageId instances)).
Proof. intros Hok. apply Hok. apply NoDup_nodup. Qed.

Lemma ami_ids_NoDup R instances :
  set_order_ok R -> NoDup (ami_ids_of R instances).
Proof.
  intros Hok. eapply Permutation_NoDup.
  - symmetry. now apply ami_ids_perm.
  - apply NoDup_nodup.
Qed.

Lemma ami_ids_In R instances ami_id :
  set_order_ok R ->
  In ami_id (ami_ids_of R instances) <->
  In ami_id (map instance_ImageId instances).
Proof.
  intros Hok.
  rewrite <- (nodup_In string_dec (map instance_ImageId instances) ami_id).
  fold (dedup (map instance_ImageId instances)). split.
  - apply Permutation_in. now apply ami_ids_perm.
  - apply Permutation_in. symmetry. now apply ami_ids_perm.
Qed.

Lemma ami_row_unknown ami_info ami_id :
  dict_get ami_id ami_info = None ->
  check_ami.ami_row ami_info ami_id = unknown_row ami_id.
Proof. intros H. unfold check_ami.ami_row. now rewrite H. Qed.

Lemma rotation_lines_compliant ami_info :
  (forall ami_id info,
      In (ami_id, info) ami_info -> check_ami.age_days info <= 90) ->
  rotation_lines ami_info = [compliance_line].
Proof.
  intros Hall. unfold rotation_lines.
  destruct (expired_entries ami_info) as [|[k info] l] eqn:E; [reflexivity|].
  assert (Hin : In (k, info) (expired_entries ami_info)) by (rewrite E; now left).
  apply filter_In in Hin as [Hin Hgt]. simpl in Hgt.
  specialize (Hall k info Hin). lia.
Qed.

(** C7.  In a run that renders the report, an image id used by an instance
    but absent from the metadata map has a row in the image table whose
    three metadata columns read [Unknown]; the id is not among the expired
    images listed by the warning block, and when every image that does have
    metadata is at most 90 days old the closing section is the compliance
    line alone, whatever ids lack metadata. *)
Theorem unknown_image_rows :
  forall R region instances w1 ami_info w2,
    set_order_ok R ->
    check_ami.get_ec2_instances R region (emit (banner_A region) init_world)
    = (Return instances, w1) ->
    instances <> [] ->
    check_ami.get_ami_info R region (ami_ids_of R instances) w1
    = (Return ami_info, w2) ->
    output_of (check_ami.main R region)
    = (stdout w2
       ++ summary_lines instances (ami_ids_of R instances)
       ++ instance_table R instances
       ++ ami_table_head
       ++ ami_table_rows (ami_ids_of R instances) ami_info
       ++ rotation_lines ami_info)%list
    /\ (forall i,
          In i instances ->
          dict_get (instance_ImageId i) ami_info = None ->
          In (unknown_row (instance_ImageId i))
             (ami_table_rows (ami_ids_of R instances) ami_info)
          /\ check_ami.ami_row ami_info (instance_ImageId i)
             = ljust (instance_ImageId i) 15 ++ " " ++ ljust "Unknown" 30 ++ " "
               ++ ljust "Unknown" 20 ++ " " ++ ljust "Unknown" 10
          /\ ~ In (instance_ImageId i)
                  (check_ami.check_ami_rotation ami_info
                     check_ami.rotation_days_default)
          /\ ~ In (instance_ImageId i) (map fst (expired_entries ami_info)))
    /\ ((forall ami_id info,
            dict_get ami_id ami_info = Some info ->
            check_ami.age_days info <= 90) ->
        rotation_lines ami_info = [compliance_line]).
Proof.
  intros R region instances w1 ami_info w2 Hok Hfetch Hne Hinfo.
  assert (Hwf : dict_wf ami_info) by (eapply get_ami_info_wf; exact Hinfo).
  split; [|split].
  - unfold output_of.
    rewrite (main_A_report _ _ _ _ _ _ Hfetch Hne Hinfo). reflexivity.
  - intros i Hi Hnone.
    assert (Hnot : ~ In (instance_ImageId i)
                     (check_ami.check_ami_rotation ami_info
                        check_ami.rotation_days_default)).
    { intros Hin. apply check_ami_rotation_keys in Hin.
      now apply dict_get_None in Hnone. }
    repeat split.
    + unfold ami_table_rows. rewrite <- (ami_row_unknown ami_info) by exact Hnone.
      apply in_map. eapply Permutation_in; [symmetry; apply sorted_perm|].
      apply ami_ids_In; [exact Hok|]. now apply in_map.
    + now apply ami_row_unknown.
    + exact Hnot.
    + now rewrite <- check_ami_rotation_expired.
  - intros Hall. apply rotation_lines_compliant.
    intros ami_id info Hin. apply (Hall ami_id). now apply In_dict_get.
Qed.

(** C8.  In a run that renders the report, the rows of the image table are
    the rows of the distinct image ids in strictly ascending order of the
    id, and that order is the same for every order in which the
    deduplicated list enumerates the ids. *)
Theorem ami_table_sorted :
  forall R region instances w1 ami_info w2,
    set_order_ok R ->
    check_ami.get_ec2_instances R region (emit (banner_A region) init_world)
    = (Return instances, w1) ->
    instances <> [] ->
    check_ami.get_ami_info R region (ami_ids_of R instances) w1
    = (Return ami_info, w2) ->
    output_of (check_ami.main R region)
    = (stdout w2
       ++ summary_lines instances (ami_ids_of R instances)
       ++ instance_table R instances
       ++ ami_table_head
       ++ map (check_ami.ami_row ami_info) (sorted (ami_ids_of R instances))
       ++ rotation_lines ami_info)%list
    /\ StronglySorted str_lt (sorted (ami_ids_of R instances))
    /\ Permutation (sorted (ami_ids_of R instances))
                   (dedup (map instance_ImageId instances))
    /\ (forall ids,
          Permutation ids (ami_ids_of R instances) ->
          sorted ids = sorted (ami_ids_of R instances)).
Proof.
  intros R region instances w1 ami_info w2 Hok Hfetch Hne Hinfo.
  assert (Hnd : NoDup (ami_ids_of R instances)) by now apply ami_ids_NoDup.
  repeat apply conj.
  - unfold output_of.
    rewrite (main_A_report _ _ _ _ _ _ Hfetch Hne Hinfo). reflexivity.
  - now apply sorted_strict.
  - rewrite sorted_perm. now apply ami_ids_perm.
  - intros ids Hp. apply strictly_sorted_unique.
    + apply sorted_strict. eapply Permutation_NoDup; [symmetry; exact Hp | exact Hnd].
    + now apply sorted_strict.
    + now rewrite !sorted_perm.
Qed.

(** ** check_ami.py: the requests sent *)

Lemma flat_map_filter {A B} (p : B -> bool) (f : A -> list B) (l : list A) :
  flat_map (fun x => filter p (f x)) l = filter p (flat_map f l).
Proof.
  induction l as [|x l IH]; simpl; [reflexivity|].
  now rewrite filter_app, IH.
Qed.

Lemma ami_entry_of_quiet R img w r w' :
  check_ami.ami_entry_of R img w = (r, w') ->
  stdout w' = stdout w /\ api_log w' = api_log w.
Proof.
  unfold check_ami.ami_entry_of, bind, lift, now, ret.
  destruct (parse_creation_date R (CreationDate img)) as [created|e].
  - destruct (days_between _ created); intros [= _ <-]; now split.
  - intros [= _ <-]; now split.
Qed.

Lemma fill_ami_info_quiet R images :
  forall d w d' e w',
    check_ami.fill_ami_info R images d w = (d', e, w') ->
    stdout w' = stdout w /\ api_log w' = api_log w.
Proof.
  induction images as [|img images IH]; intros d w d' e w'; simpl.
  - intros [= _ _ <-]; now split.
  - destruct (check_ami.ami_entry_of R img w) as [[entry|ex] w1] eqn:E;
      apply ami_entry_of_quiet in E as [E1 E2].
    + intros H. apply IH in H as [H1 H2]. split; congruence.
    + intros [= _ _ <-]. now split.
Qed.

Lemma get_ami_info_calls R region ami_ids w r w' :
  ami_ids <> [] ->
  check_ami.get_ami_info R region ami_ids w = (r, w') ->
  api_log w' = (api_log w ++ [DescribeImages region ami_ids])%list.
Proof.
  intros Hne. rewrite get_ami_info_run by exact Hne. cbv zeta.
  destruct (describe_images R region ami_ids) as [response|e].
  - destruct (check_ami.fill_ami_info R response [] _) as [[d oe] w2] eqn:E.
    apply fill_ami_info_quiet in E as [_ E].
    destruct oe; intros [= _ <-]; exact E.
  - intros [= _ <-]. reflexivity.
Qed.

Lemma ami_ids_nonempty R instances :
  set_order_ok R -> instances <> [] -> ami_ids_of R instances <> [].
Proof.
  intros Hok Hne Hnil. destruct instances as [|i rest]; [congruence|].
  assert (Hin : In (instance_ImageId i) (ami_ids_of R (i :: rest))).
  { apply ami_ids_In; [exact Hok | now left]. }
  rewrite Hnil in Hin. destruct Hin.
Qed.

(** C9.  When the service answers, [get_ec2_instances] returns, in the
    order of the answer, exactly the instances whose state is not
    [terminated].  If there is any, the run sends one request for the
    metadata of the distinct image ids of these instances, each id once,
    and the summary prints as [Unique AMIs in use] the number of distinct
    image ids. *)
Theorem unique_ami_count :
  forall R region response,
    set_order_ok R ->
    describe_instances R region = Return response ->
    let instances :=
      filter check_ami.not_terminated (flat_map Instances response) in
    (forall w,
        check_ami.get_ec2_instances R region w
        = (Return instances, logged (DescribeInstances region) w))
    /\ (forall i,
          In i instances <->
          In i (flat_map Instances response) /\ State_Name i <> "terminated")
    /\ (instances <> [] ->
        exists ami_info w2,
          check_ami.get_ami_info R region (ami_ids_of R instances)
            (logged (DescribeInstances region) (emit (banner_A region) init_world))
          = (Return ami_info, w2)
          /\ output_of (check_ami.main R region)
             = (stdout w2
                ++ summary_lines instances (ami_ids_of R instances)
                ++ instance_table R instances
                ++ ami_table_head
                ++ ami_table_rows (ami_ids_of R instances) ami_info
                ++ rotation_lines ami_info)%list
          /\ calls_of (check_ami.main R region)
             = [DescribeInstances region;
                DescribeImages region (ami_ids_of R instances)]
          /\ NoDup (ami_ids_of R instances)
          /\ (forall ami_id,
                In ami_id (ami_ids_of R instances) <->
                exists i, In i instances /\ instance_ImageId i = ami_id)
          /\ summary_lines instances (ami_ids_of R instances)
             = [nl ++ "SUMMARY:";
                "Total EC2 instances: "
                ++ str_of_int (Z.of_nat (List.length instances));
                "Unique AMIs in use: "
                ++ str_of_int
                     (Z.of_nat
                        (List.length (dedup (map instance_ImageId instances))))]).
Proof.
  intros R region response Hok Hresp instances.
  assert (Hfetch : forall w,
             check_ami.get_ec2_instances R region w
             = (Return instances, logged (DescribeInstances region) w)).
  { intros w. rewrite get_ec2_instances_run, Hresp. cbv zeta.
    now rewrite flat_map_filter. }
  split; [exact Hfetch | split].
  - intros i. unfold instances, check_ami.not_terminated.
    rewrite filter_In, negb_true_iff. split; intros [Hin Hst]; split; auto.
    + intros E. rewrite E in Hst. discriminate.
    + now apply String.eqb_neq.
  - intros Hne.
    destruct (get_ami_info_returns R region (ami_ids_of R instances)
                (logged (DescribeInstances region)
                        (emit (banner_A region) init_world)))
      as (ami_info & w2 & Hinfo).
    exists ami_info, w2.
    pose proof (main_A_report _ _ _ _ _ _ (Hfetch _) Hne Hinfo) as Hmain.
    repeat apply conj.
    + exact Hinfo.
    + unfold output_of. rewrite Hmain. reflexivity.
    + unfold calls_of. rewrite Hmain. simpl.
      apply get_ami_info_calls in Hinfo; [exact Hinfo|].
      now apply ami_ids_nonempty.
    + now apply ami_ids_NoDup.
    + intros ami_id. rewrite ami_ids_In by exact Hok. rewrite in_map_iff.
      split; intros (i & H1 & H2); exists i; auto.
    + unfold summary_lines, unique_amis_line.
      now rewrite (Permutation_length (ami_ids_perm R instances Hok)).
Qed.

(** C10.  When the fetch of the instances yields the empty list, because
    no instance is left or because the request failed, the script prints,
    after its banner and the diagnostic of a failed request, the one line
    [No EC2 instances found or error occurred.] and ends: no further
    request is sent, the clock is not read, and nothing of the report is
    printed. *)
Theorem no_instances_message :
  forall R region,
    fst (check_ami.get_ec2_instances R region (emit (banner_A region) init_world))
    = Return [] ->
    check_ami.main R region init_world
    = (Return tt,
       mkWorld
         (banner_A region
          ++ match describe_instances R region with
             | Raise e => ["Error fetching EC2 instances: " ++ exn_str e]
             | Return _ => []
             end
          ++ [no_instances_line])
         [DescribeInstances region]
         0).
Proof.
  intros R region Hempty.
  destruct (check_ami.get_ec2_instances R region _) as [r w1] eqn:Hfetch.
  simpl in Hempty. subst r.
  rewrite (main_A_no_instances _ _ _ Hfetch).
  rewrite get_ec2_instances_run in Hfetch. cbv zeta in Hfetch.
  destruct (describe_instances R region) as [response|e];
    inversion Hfetch; subst; reflexivity.
Qed.

(** ** latest_ami.py: the detail block *)

Lemma bind_lift {A B} (a : A) (k : A -> M B) (w : world) :
  bind (lift (Return a)) k w = k a w.
Proof. reflexivity. Qed.

Lemma bind_now {B} R (k : datetime -> M B) (w : world) :
  bind (now R) k w = k (mkDatetime (clock R (clock_reads w)) true) (ticked w).
Proof. reflexivity. Qed.

Lemma mapping_row_text (m : block_device_mapping) (e : ebs) (w : world) :
  Ebs m = Some e ->
  latest_ami.mapping_row m w = (Return tt, emit [ebs_line (DeviceName m) e] w).
Proof.
  intros H. unfold latest_ami.mapping_row. rewrite H, print_run.
  unfold ebs_line, size_text, type_text, encryption_label.
  destruct (Encrypted e) as [[|]|]; reflexivity.
Qed.

Lemma mapping_rows_run (ms : list block_device_mapping) (w : world) :
  for_each ms latest_ami.mapping_row w =
  (Return tt,
   emit (map (fun p => ebs_line (fst p) (snd p))
             (flat_map (fun m => match Ebs m with
                                 | Some e => [(DeviceName m, e)]
                                 | None => []
                                 end) ms)) w).
Proof.
  revert w; induction ms as [|m ms IH]; intros w; simpl.
  - unfold ret. now rewrite emit_nil.
  - unfold bind. destruct (Ebs m) as [e|] eqn:E.
    + rewrite (mapping_row_text m e w E), IH, emit_emit. reflexivity.
    + unfold latest_ami.mapping_row. rewrite E. unfold ret. apply IH.
Qed.

Lemma format_ami_info_run R ami nm created (w : world) :
  parse_creation_date R (CreationDate ami) = Return created ->
  aware created = true ->
  Name ami = Some nm ->
  latest_ami.format_ami_info R ami w =
  (Return tt,
   emit (detail_lines R ami nm created
           ((clock R (clock_reads w) - instant created) / microseconds_per_day)
         ++ tag_lines ami
         ++ [nl ++ "Block Device Mappings:"]
         ++ mapping_lines ami)
        (ticked w)).
Proof.
  intros Hparse Haware Hname. unfold latest_ami.format_ami_info.
  rewrite Hparse, bind_lift, bind_now.
  unfold days_between. simpl aware. rewrite Haware. simpl Bool.eqb. cbv iota.
  simpl instant. rewrite bind_lift, !bind_print. rewrite Hname, bind_lift.
  rewrite !bind_print. unfold tag_lines, mapping_lines, ebs_mappings.
  fold (mappings_of ami).
  destruct (Tags ami) as [[|tg tags]|].
  - unfold bind at 1. unfold ret at 1. rewrite bind_print, mapping_rows_run.
    rewrite !emit_emit. reflexivity.
  - rewrite bind_run with (a := tt)
      (w' := emit ("Tags:" :: map (fun t => "  " ++ Key t ++ ": " ++ Value t)
                                  (tg :: tags))
                  (emit (detail_lines R ami nm created
                           ((clock R (clock_reads w) - instant created)
                            / microseconds_per_day)) (ticked w))).
    + rewrite bind_print, mapping_rows_run. rewrite !emit_emit.
      reflexivity.
    + rewrite bind_print, for_each_print, !emit_emit. reflexivity.
  - unfold bind at 1. unfold ret at 1. rewrite bind_print, mapping_rows_run.
    rewrite !emit_emit. reflexivity.
Qed.

(** C6, as stated, fails: a mapping without an [Ebs] part (an instance-store
    volume) gets no line.  The sample image has [/dev/sdb] of that kind,
    and no printed line starts with its device name. *)
Lemma ephemeral_mapping_not_rendered :
  ~ every_mapping_rendered image_jan
      (output_of (latest_ami.format_ami_info
                    (sample_runtime (Return []) sample_images (Return [image_jan]))
                    image_jan)).
Proof.
  intros H.
  destruct (H (mkMapping "/dev/sdb" None)) as (line & Hin & Hp).
  { vm_compute. right. left. reflexivity. }
  vm_compute in Hin.
  repeat (destruct Hin as [<- | Hin]; [vm_compute in Hp; discriminate|]).
  destruct Hin.
Qed.

(** C6, amended.  For an image whose fields render, [format_ami_info]
    prints, after the fields and the optional tags, the heading of the
    block-device listing and then one line for each mapping that has an
    [Ebs] part, in order, and no line for a mapping without one.  The line
    shows the device name, the volume size or [N/A] followed by [GB], the
    volume type or [N/A], and [Encrypted] when the flag is present and
    true, [Not Encrypted] when it is false or absent. *)
Theorem block_device_lines :
  forall R ami nm created w,
    parse_creation_date R (CreationDate ami) = Return created ->
    aware created = true ->
    Name ami = Some nm ->
    latest_ami.format_ami_info R ami w =
    (Return tt,
     emit (detail_lines R ami nm created
             ((clock R (clock_reads w) - instant created) / microseconds_per_day)
           ++ tag_lines ami
           ++ [nl ++ "Block Device Mappings:"]
           ++ map (fun p => "  " ++ fst p ++ ": " ++ size_text (snd p) ++ "GB ("
                            ++ type_text (snd p) ++ ") "
                            ++ encryption_label (snd p))
                  (ebs_mappings ami))
          (ticked w))
    /\ (forall m e,
          In m (mappings_of ami) -> Ebs m = Some e ->
          In (DeviceName m, e) (ebs_mappings ami))
    /\ (forall dev e,
          In (dev, e) (ebs_mappings ami) ->
          exists m, In m (mappings_of ami) /\ DeviceName m = dev /\ Ebs m = Some e)
    /\ (forall e,
          (VolumeSize e = None -> size_text e = "N/A")
          /\ (forall n, VolumeSize e = Some n -> size_text e = str_of_int n)
          /\ (VolumeType e = None -> type_text e = "N/A")
          /\ (forall t, VolumeType e = Some t -> type_text e = t)
          /\ (Encrypted e = Some true -> encryption_label e = "Encrypted")
          /\ (Encrypted e = Some false -> encryption_label e = "Not Encrypted")
          /\ (Encrypted e = None -> encryption_label e = "Not Encrypted")).
Proof.
  intros R ami nm created w Hparse Haware Hname.
  split; [|split; [|split]].
  - rewrite (format_ami_info_run R ami nm created w Hparse Haware Hname).
    reflexivity.
  - intros m e Hin He. unfold ebs_mappings. apply in_flat_map.
    exists m. split; [exact Hin|]. rewrite He. now left.
  - intros dev e Hin. unfold ebs_mappings in Hin. apply in_flat_map in Hin.
    destruct Hin as (m & Hm & Hin). exists m.
    destruct (Ebs m) as [e'|]; [|destruct Hin].
    destruct Hin as [[= <- <-]|[]]. auto.
  - intros e. unfold size_text, type_text, encryption_label.
    repeat split; try (intros ? H; now rewrite H); intros H; now rewrite H.
Qed.

(** ** latest_ami.py: no match *)

Lemma main_B_none R region pat owner w1 :
  latest_ami.get_latest_ami R region pat owner
    (emit (banner_B region pat owner) init_world) = (Return None, w1) ->
  latest_ami.main R region pat owner init_world
  = (Return tt, emit (no_ami_lines ++ reason_lines) w1).
Proof.
  intros H. unfold latest_ami.main. rewrite !bind_print, !emit_emit.
  change (((_ ++ _) ++ _) ++ _)%list with (banner_B region pat owner).
  rewrite (bind_run _ _ _ _ _ H). rewrite !bind_print, print_run, !emit_emit.
  reflexivity.
Qed.

(** C5, as stated, fails: when the pattern matches no image the script
    prints four possible-reasons lines after the heading, not three. *)
Lemma no_match_prints_four_reasons :
  ~ (exists r1 r2 r3,
        output_of (latest_ami.main
                     (sample_runtime (Return []) sample_images (Return []))
                     "eu-west-1" latest_ami.default_name_pattern
                     latest_ami.default_owner)
        = (banner_B "eu-west-1" latest_ami.default_name_pattern
                    latest_ami.default_owner
           ++ no_ami_lines ++ [r1; r2; r3])%list).
Proof.
  intros (r1 & r2 & r3 & H).
  apply (f_equal (@List.length string)) in H. vm_compute in H. discriminate.
Qed.

(** C5, amended.  Whenever the lookup yields nothing, the script prints the
    [No AMI found] message and the heading of the possible reasons,
    followed by four reason lines, and ends: no detail block, no verdict.
    When the pattern matches no image, that is the whole output after the
    banner, one request was sent and the clock was not read. *)
Theorem no_match_output :
  forall R region pat owner,
    (forall w1,
        latest_ami.get_latest_ami R region pat owner
          (emit (banner_B region pat owner) init_world) = (Return None, w1) ->
        latest_ami.main R region pat owner init_world
        = (Return tt,
           emit ["No AMI found matching the specified criteria.";
                 nl ++ "Possible reasons:";
                 "- No AMIs with the specified name pattern exist";
                 "- AMIs might be owned by a different account";
                 "- AMIs might be in a different region";
                 "- AMIs might be in 'pending' or 'failed' state"] w1))
    /\ (describe_images_filtered R region [owner] (latest_filters pat) = Return [] ->
        latest_ami.main R region pat owner init_world
        = (Return tt,
           mkWorld (banner_B region pat owner ++ no_ami_lines ++ reason_lines)
                   [DescribeImagesFiltered region [owner] (latest_filters pat)]
                   0))
    /\ List.length reason_lines = 4%nat.
Proof.
  intros R region pat owner. split; [|split].
  - intros w1 H. rewrite (main_B_none _ _ _ _ _ H). reflexivity.
  - intros Hresp.
    rewrite (main_B_none R region pat owner
               (logged (DescribeImagesFiltered region [owner] (latest_filters pat))
                       (emit (banner_B region pat owner) init_world))).
    + reflexivity.
    + rewrite get_latest_ami_run, Hresp. reflexivity.
  - reflexivity.
Qed.

(** ** Sample runs *)

(** An image aged 120 days is listed in the warning block. *)
Example rotation_warning_120 :
  output_of (check_ami.rotation_section
               [("ami-1", check_ami.mkEntry "base" (mkDatetime 0 true)
                                            "1970-01-01 00:00:00 UTC" 120)])
  = [nl ++ "⚠️  AMI ROTATION WARNING:";
     "The following AMIs are older than 90 days and should be rotated:";
     "  - ami-1: base (120 days old)"].
Proof. reflexivity. Qed.

(** An image aged 10 days leaves the compliance line alone. *)
Example rotation_compliant_10 :
  output_of (check_ami.rotation_section
               [("ami-1", check_ami.mkEntry "base" (mkDatetime 0 true)
                                            "1970-01-01 00:00:00 UTC" 10)])
  = [nl ++ "✅ All AMIs are within the 90-day rotation policy."].
Proof. reflexivity. Qed.

(** A name of 35 characters shows its first 29, without a marker. *)
Example name_truncated_to_29 :
  check_ami.ami_row
    [("ami-1", check_ami.mkEntry "abcdefghijklmnopqrstuvwxyz012345678"
                                 (mkDatetime 0 true) "1970-01-01 00:00:00 UTC" 10)]
    "ami-1"
  = "ami-1           abcdefghijklmnopqrstuvwxyz012  1970-01-01 00:00:00 UTC 10        ".
Proof. reflexivity. Qed.

(** A date that does not parse stops [get_ami_info] after the entries
    stored before it. *)
Example metadata_kept_up_to_bad_date :
  let R := sample_runtime (Return [])
             (fun _ => Return [image_mar;
                               sample_image "ami-0eee" None "yesterday" None;
                               image_may])
             (Return []) in
  check_ami.get_ami_info R "eu-west-1" ["ami-0bbb"; "ami-0eee"; "ami-0ccc"]
    init_world
  = (Return [("ami-0bbb",
              check_ami.mkEntry "company-abc-base-2"
                (mkDatetime 1709251200000000 true) "2024-03-01 00:00:00 UTC" 92)],
     mkWorld ["Error fetching AMI information: Invalid isoformat string: 'yesterday'"]
             [DescribeImages "eu-west-1" ["ami-0bbb"; "ami-0eee"; "ami-0ccc"]]
             1).
Proof. reflexivity. Qed.

(** Equal creation dates: the first image of the answer is kept. *)
Example latest_of_equal_dates_is_first :
  let twin := sample_image "ami-0fff" (Some "company-abc-base-2b")
                "2024-03-01T00:00:00.000Z" None in
  max_by_key (image_key sample_R) [image_jan; image_mar; twin] = Return image_mar
  /\ max_by_key (image_key sample_R) [twin; image_jan; image_mar] = Return twin.
Proof. split; reflexivity. Qed.

(** The report of the sample region. *)
Example sample_report :
  output_of (check_ami.main sample_R "eu-west-1")
  = ["Checking EC2 instances in region: eu-west-1";
     "==================================================";
     nl ++ "SUMMARY:";
     "Total EC2 instances: 4";
     "Unique AMIs in use: 3";
     nl ++ "EC2 INSTANCES:";
     "--------------------------------------------------------------------------------";
     "Instance ID          Instance Type   AMI ID          Launch Time         ";
     "--------------------------------------------------------------------------------";
     "i-01                 t3.micro        ami-0ccc        2024-05-01 00:00:00 ";
     "i-03                 t3.micro        ami-0bbb        2024-05-01 00:00:00 ";
     "i-04                 t3.micro        ami-0ccc        2024-05-01 00:00:00 ";
     "i-05                 t3.micro        ami-0ddd        2024-05-01 00:00:00 ";
     nl ++ "AMI INFORMATION:";
     "--------------------------------------------------------------------------------";
     "AMI ID          AMI Name                       Created              Age (days)";
     "--------------------------------------------------------------------------------";
     "ami-0bbb        company-abc-base-2             2024-03-01 00:00:00 UTC 92        ";
     "ami-0ccc        Unknown                        2024-05-01 00:00:00 UTC 31        ";
     "ami-0ddd        Unknown                        Unknown              Unknown   ";
     nl ++ "⚠️  AMI ROTATION WARNING:";
     "The following AMIs are older than 90 days and should be rotated:";
     "  - ami-0bbb: company-abc-base-2 (92 days old)"].
Proof. vm_compute. reflexivity. Qed.

(** ** The statements at the sample data *)

Lemma sample_set_order_ok (ia : outcome (list reservation))
    (im : list string -> outcome (list image)) (fa : outcome (list image)) :
  set_order_ok (sample_runtime ia im fa).
Proof. intros xs _. simpl. symmetry. apply Permutation_rev. Qed.

Lemma sample_fetch :
  check_ami.get_ec2_instances sample_R "eu-west-1"
    (emit (banner_A "eu-west-1") init_world)
  = (Return sample_instances, sample_w1).
Proof. vm_compute. reflexivity. Qed.

Lemma sample_metadata :
  check_ami.get_ami_info sample_R "eu-west-1"
    (ami_ids_of sample_R sample_instances) sample_w1
  = (Return sample_ami_info, sample_w2).
Proof. vm_compute. reflexivity. Qed.

Lemma sample_instances_nonempty : sample_instances <> [].
Proof. discriminate. Qed.

Lemma sample_ami_info_wf : dict_wf sample_ami_info.
Proof.
  repeat (constructor; [simpl; intuition discriminate|]). constructor.
Qed.

Lemma get_latest_ami_selects_latest_witness :
  latest_ami.get_latest_ami lookup_R "eu-west-1" "*company-abc*" "self" init_world
  = (Return (Some image_mar), after_lookup "eu-west-1" "*company-abc*" "self").
Proof.
  refine (proj2 (proj2 (get_latest_ami_selects_latest lookup_R "eu-west-1"
                          "*company-abc*" "self" [image_jan; image_mar]
                          eq_refl _))
                image_jan image_mar 1704067200000000 1709251200000000
                (or_introl eq_refl) eq_refl eq_refl eq_refl).
  constructor; [eexists; reflexivity|].
  constructor; [eexists; reflexivity|]. constructor.
Defined.

Lemma check_ami_rotation_exact_witness :
  ~ In "ami-0ddd" (check_ami.check_ami_rotation sample_ami_info 90)
  /\ NoDup (check_ami.check_ami_rotation sample_ami_info 90).
Proof.
  destruct (check_ami_rotation_exact sample_ami_info 90 sample_ami_info_wf)
    as (_ & _ & Habsent & Hnd & _).
  split; [apply Habsent; reflexivity | exact Hnd].
Defined.


Lemma check_ami_rotation_monotone_witness :
  incl (check_ami.check_ami_rotation sample_ami_info 90)
       (check_ami.check_ami_rotation sample_ami_info 30).
Proof.
  apply (check_ami_rotation_monotone sample_ami_info 30 90). lia.
Defined.

Lemma no_match_output_witness :
  latest_ami.main sample_R "eu-west-1" "*company-abc*" "self" init_world
  = (Return tt,
     mkWorld (banner_B "eu-west-1" "*company-abc*" "self"
              ++ no_ami_lines ++ reason_lines)
             [DescribeImagesFiltered "eu-west-1" ["self"]
                (latest_filters "*company-abc*")]
             0).
Proof.
  exact (proj1 (proj2 (no_match_output sample_R "eu-west-1" "*company-abc*" "self"))
               eq_refl).
Defined.

Lemma block_device_lines_witness :
  output_of (latest_ami.format_ami_info lookup_R image_jan)
  = (detail_lines lookup_R image_jan "company-abc-base-1"
       (mkDatetime 1704067200000000 true) 152
     ++ ["Tags:"; "  Team: platform"; "  Env: prod"]
     ++ [(nl ++ "Block Device Mappings:")%string]
     ++ ["  /dev/xvda: 8GB (gp3) Encrypted";
         "  /dev/sdf: N/AGB (N/A) Not Encrypted"])%list.
Proof.
  unfold output_of.
  rewrite (proj1 (block_device_lines lookup_R image_jan "company-abc-base-1"
                    (mkDatetime 1704067200000000 true) init_world
                    eq_refl eq_refl eq_refl)).
  reflexivity.
Defined.

Lemma unknown_image_rows_witness :
  In (unknown_row "ami-0ddd")
     (ami_table_rows (ami_ids_of sample_R sample_instances) sample_ami_info)
  /\ ~ In "ami-0ddd" (check_ami.check_ami_rotation sample_ami_info 90).
Proof.
  destruct (unknown_image_rows sample_R "eu-west-1" sample_instances sample_w1
              sample_ami_info sample_w2
              (sample_set_order_ok _ _ _) sample_fetch
              sample_instances_nonempty sample_metadata)
    as (_ & Hrows & _).
  destruct (Hrows (sample_instance "i-05" "ami-0ddd" "pending")) as (H1 & _ & H2 & _).
  - simpl. auto.
  - reflexivity.
  - split; [exact H1 | exact H2].
Defined.

Lemma ami_table_sorted_witness :
  StronglySorted str_lt (sorted (ami_ids_of sample_R sample_instances))
  /\ sorted (ami_ids_of sample_R sample_instances)
     = ["ami-0bbb"; "ami-0ccc"; "ami-0ddd"].
Proof.
  split; [|reflexivity].
  exact (proj1 (proj2 (ami_table_sorted sample_R "eu-west-1" sample_instances
                         sample_w1 sample_ami_info sample_w2
                         (sample_set_order_ok _ _ _) sample_fetch
                         sample_instances_nonempty sample_metadata))).
Defined.

Lemma unique_ami_count_witness :
  check_ami.get_ec2_instances sample_R "eu-west-1" init_world
  = (Return sample_instances, logged (DescribeInstances "eu-west-1") init_world)
  /\ In "Unique AMIs in use: 3" (output_of (check_ami.main sample_R "eu-west-1")).
Proof.
  split.
  - exact (proj1 (unique_ami_count sample_R "eu-west-1" sample_reservations
                    (sample_set_order_ok _ _ _) eq_refl) init_world).
  - vm_compute. tauto.
Defined.

Lemma no_instances_message_witness :
  check_ami.main failing_R "eu-west-1" init_world
  = (Return tt,
     mkWorld ["Checking EC2 instances in region: eu-west-1";
              "==================================================";
              "Error fetching EC2 instances: An error occurred (UnauthorizedOperation)";
              "No EC2 instances found or error occurred."]
             [DescribeInstances "eu-west-1"] 0).
Proof.
  exact (no_instances_message failing_R "eu-west-1" eq_refl).
Defined.

(* ================================================================== *)
(** * Further properties *)

(** ** latest_ami.py: what the lookup can return *)



Lemma max_loop_raise {A} (key : A -> outcome datetime) (pre post : list A)
    (bad : A) (e : exn) :
  all_keyed key pre -> key bad = Raise e ->
  forall m tm,
    max_loop key (pre ++ bad :: post)%list m (mkDatetime tm true) = Raise e.
Proof.
  intros Hpre Hbad. induction Hpre as [|x pre [t Hx] _ IH]; intros m tm.
  - simpl. now rewrite Hbad.
  - rewrite <- app_comm_cons, (max_loop_cons key x _ m tm t Hx).
    destruct (t >? tm); apply IH.
Qed.

Lemma max_by_key_raise {A} (key : A -> outcome datetime) (pre post : list A)
    (bad : A) (e : exn) :
  all_keyed key pre -> key bad = Raise e ->
  max_by_key key (pre ++ bad :: post)%list = Raise e.
Proof.
  intros Hpre Hbad. destruct Hpre as [|x pre [t Hx] Hpre]; simpl.
  - now rewrite Hbad.
  - rewrite Hx. now apply max_loop_raise.
Qed.


(** X2.  One record whose creation date does not parse hides every other
    record of the answer: when the records before it are well formed,
    [get_latest_ami] returns nothing and prints the parse error, wherever
    the record stands and whatever follows it. *)
Theorem get_latest_ami_bad_date :
  forall R region pat owner pre bad post e w,
    describe_images_filtered R region [owner] (latest_filters pat)
    = Return (pre ++ bad :: post)%list ->
    all_keyed (image_key R) pre ->
    parse_creation_date R (CreationDate bad) = Raise e ->
    latest_ami.get_latest_ami R region pat owner w
    = (Return None,
       emit ["Error fetching AMI information: " ++ exn_str e]
            (logged (DescribeImagesFiltered region [owner] (latest_filters pat)) w)).
Proof.
  intros R region pat owner pre bad post e w Hresp Hpre Hbad.
  rewrite get_latest_ami_run, Hresp. cbv zeta.
  assert (Hmax : max_by_key (image_key R) (pre ++ bad :: post)%list = Raise e)
    by now apply max_by_key_raise.
  destruct (pre ++ bad :: post)%list as [|x xs] eqn:E.
  - destruct pre; discriminate.
  - now rewrite Hmax.
Qed.

(** ** check_ami.py: the metadata map *)

Lemma dict_set_fresh {V} (k : string) (v : V) (d : dict V) :
  ~ In k (dict_keys d) -> dict_set k v d = (d ++ [(k, v)])%list.
Proof.
  unfold dict_keys. induction d as [|[k' v'] d IH]; simpl; [reflexivity|].
  intros Hnotin. destruct (String.eqb_spec k k') as [->|Hne].
  - exfalso. apply Hnotin. now left.
  - rewrite IH; [reflexivity|]. intros Hin. apply Hnotin. now right.
Qed.

Lemma ami_entry_of_ok R img t (w : world) :
  parse_creation_date R (CreationDate img) = Return (mkDatetime t true) ->
  check_ami.ami_entry_of R img w
  = (Return (entry_at R img (mkDatetime t true) (clock R (clock_reads w))),
     ticked w).
Proof.
  intros Hparse. unfold check_ami.ami_entry_of.
  rewrite Hparse, bind_lift, bind_now. reflexivity.
Qed.

Lemma ami_entry_of_bad R img e (w : world) :
  parse_creation_date R (CreationDate img) = Raise e ->
  check_ami.ami_entry_of R img w = (Raise e, w).
Proof.
  intros Hparse. unfold check_ami.ami_entry_of, bind, lift.
  now rewrite Hparse.
Qed.

Lemma fill_ami_info_ok R (imgs : list image) :
  all_keyed (image_key R) imgs ->
  forall acc w,
    NoDup (dict_keys acc ++ map ImageId imgs)%list ->
    check_ami.fill_ami_info R imgs acc w
    = ((acc ++ expected_entries R imgs (clock_reads w))%list, None,
       mkWorld (stdout w) (api_log w) (clock_reads w + List.length imgs)).
Proof.
  induction 1 as [|img imgs [t Hx] _ IH]; intros acc w Hnd; simpl.
  - rewrite app_nil_r, Nat.add_0_r. now destruct w.
  - unfold image_key, key_at in Hx.
    rewrite (ami_entry_of_ok R img t w Hx), Hx.
    rewrite dict_set_fresh.
    + rewrite IH.
      * simpl. rewrite <- app_assoc, Nat.add_succ_r. reflexivity.
      * unfold dict_keys in *. rewrite map_app, <- app_assoc. exact Hnd.
    + apply NoDup_remove_2 in Hnd. intros Hin. apply Hnd.
      apply in_or_app. now left.
Qed.

Lemma fill_ami_info_stops R (pre post : list image) (bad : image) :
  forall acc w stored w1 e w2,
    check_ami.fill_ami_info R pre acc w = (stored, None, w1) ->
    check_ami.ami_entry_of R bad w1 = (Raise e, w2) ->
    check_ami.fill_ami_info R (pre ++ bad :: post)%list acc w
    = (stored, Some e, w2).
Proof.
  induction pre as [|img pre IH]; intros acc w stored w1 e w2; simpl.
  - intros [= <- <-] Hbad. now rewrite Hbad.
  - destruct (check_ami.ami_entry_of R img w) as [[entry|ex] w'].
    + apply IH.
    + discriminate.
Qed.

Lemma expected_entries_nth R (imgs : list image) :
  all_keyed (image_key R) imgs ->
  forall n i img,
    nth_error imgs i = Some img ->
    exists t,
      parse_creation_date R (CreationDate img) = Return (mkDatetime t true)
      /\ nth_error (expected_entries R imgs n) i
         = Some (ImageId img,
                 entry_at R img (mkDatetime t true) (clock R (n + i))).
Proof.
  induction 1 as [|x imgs [t Hx] _ IH]; intros n i img.
  - destruct i; discriminate.
  - unfold image_key, key_at in Hx. simpl. rewrite Hx.
    destruct i as [|i]; simpl.
    + intros [= <-]. exists t. now rewrite Nat.add_0_r.
    + intros Hi. destruct (IH (S n) i img Hi) as (t' & Hp & Hn).
      exists t'. split; [exact Hp|]. now rewrite Nat.add_succ_r.
Qed.

Lemma expected_entries_keys R (imgs : list image) :
  all_keyed (image_key R) imgs ->
  forall n, dict_keys (expected_entries R imgs n) = map ImageId imgs.
Proof.
  induction 1 as [|x imgs [t Hx] _ IH]; intros n; simpl; [reflexivity|].
  unfold image_key, key_at in Hx. rewrite Hx. simpl. f_equal. apply IH.
Qed.

(** X3.  When the service answers with well-formed records, one per image,
    [get_ami_info] returns a map that lists the images in the order of the
    answer.  The entry of the image at position [i] holds its name, or
    [Unknown] without one, its parsed and formatted creation date and its
    age in whole days at the [i]-th read of the clock after the start.
    Nothing is printed, one request is sent and the clock is read once for
    each image. *)
Theorem get_ami_info_entries :
  forall R region ami_ids response w,
    ami_ids <> [] ->
    describe_images R region ami_ids = Return response ->
    all_keyed (image_key R) response ->
    NoDup (map ImageId response) ->
    check_ami.get_ami_info R region ami_ids w
    = (Return (expected_entries R response (clock_reads w)),
       mkWorld (stdout w)
               (api_log w ++ [DescribeImages region ami_ids])
               (clock_reads w + List.length response))
    /\ dict_keys (expected_entries R response (clock_reads w))
       = map ImageId response
    /\ (forall i img,
          nth_error response i = Some img ->
          exists t,
            parse_creation_date R (CreationDate img)
            = Return (mkDatetime t true)
            /\ nth_error (expected_entries R response (clock_reads w)) i
               = Some (ImageId img,
                       check_ami.mkEntry
                         (match Name img with Some n => n | None => "Unknown" end)
                         (mkDatetime t true)
                         (strftime R (mkDatetime t true) "%Y-%m-%d %H:%M:%S UTC")
                         ((clock R (clock_reads w + i) - t)
                          / microseconds_per_day))).
Proof.
  intros R region ami_ids response w Hne Hresp Hkeys Hnd.
  split; [|split].
  - rewrite get_ami_info_run, Hresp by exact Hne. cbv zeta.
    rewrite (fill_ami_info_ok R response Hkeys [] _ Hnd). reflexivity.
  - now apply expected_entries_keys.
  - intros i img Hi. now apply expected_entries_nth.
Qed.

(** X4.  A record whose creation date does not parse stops [get_ami_info]:
    the images before it are in the returned map, the record itself and
    every image after it are not, and the parse error is printed. *)
Theorem get_ami_info_bad_record :
  forall R region ami_ids pre bad post e w,
    ami_ids <> [] ->
    describe_images R region ami_ids = Return (pre ++ bad :: post)%list ->
    all_keyed (image_key R) pre ->
    NoDup (map ImageId pre) ->
    parse_creation_date R (CreationDate bad) = Raise e ->
    check_ami.get_ami_info R region ami_ids w
    = (Return (expected_entries R pre (clock_reads w)),
       mkWorld (stdout w ++ ["Error fetching AMI information: " ++ exn_str e])
               (api_log w ++ [DescribeImages region ami_ids])
               (clock_reads w + List.length pre))
    /\ dict_keys (expected_entries R pre (clock_reads w)) = map ImageId pre.
Proof.
  intros R region ami_ids pre bad post e w Hne Hresp Hkeys Hnd Hbad.
  split; [|now apply expected_entries_keys].
  rewrite get_ami_info_run, Hresp by exact Hne. cbv zeta.
  pose proof (fill_ami_info_ok R pre Hkeys []
                (logged (DescribeImages region ami_ids) w) Hnd) as Hfill.
  rewrite (fill_ami_info_stops R pre post bad _ _ _ _ e _ Hfill
             (ami_entry_of_bad R bad e _ Hbad)).
  reflexivity.
Qed.

Lemma fill_ami_info_keys R (imgs : list image) :
  forall acc w stored e w',
    check_ami.fill_ami_info R imgs acc w = (stored, e, w') ->
    forall k, In k (dict_keys stored) ->
              In k (dict_keys acc) \/ In k (map ImageId imgs).
Proof.
  induction imgs as [|img imgs IH]; intros acc w stored e w'; simpl.
  - intros [= <- _ _] k Hk. now left.
  - destruct (check_ami.ami_entry_of R img w) as [[entry|ex] w1].
    + intros H k Hk. destruct (IH _ _ _ _ _ H k Hk) as [Hin | Hin]; [|auto].
      rewrite dict_set_keys in Hin.
      destruct (dict_mem (ImageId img) acc); [now left|].
      apply in_app_or in Hin as [Hin | [<- | []]]; auto.
    + intros [= <- _ _] k Hk. now left.
Qed.

(** X5.  Whatever the service answers and wherever the processing stops,
    the map returned by [get_ami_info] has one entry per identifier, every
    identifier in it is the [ImageId] of a record of the answer, and the
    fetch reads the clock but prints at most the one diagnostic line. *)
Theorem get_ami_info_invariant :
  forall R region ami_ids w ami_info w',
    check_ami.get_ami_info R region ami_ids w = (Return ami_info, w') ->
    dict_wf ami_info
    /\ (forall k,
          In k (dict_keys ami_info) ->
          exists response img,
            describe_images R region ami_ids = Return response
            /\ In img response /\ ImageId img = k)
    /\ (ami_ids = [] -> ami_info = [] /\ w' = w)
    /\ (stdout w' = stdout w
        \/ exists e, stdout w' = (stdout w ++ [ami_error_line e])%list).
Proof.
  intros R region ami_ids w ami_info w' Hrun.
  split; [eapply get_ami_info_wf; exact Hrun|].
  destruct ami_ids as [|i ids].
  { injection Hrun as <- <-. repeat split; auto. intros k []. }
  rewrite get_ami_info_run in Hrun by discriminate. cbv zeta in Hrun.
  destruct (describe_images R region (i :: ids)) as [response|e].
  - destruct (check_ami.fill_ami_info R response [] _) as [[d oe] w2] eqn:E.
    pose proof (fill_ami_info_keys _ _ _ _ _ _ _ E) as Hkeys.
    apply fill_ami_info_quiet in E as [Hout _].
    assert (Hd : forall k, In k (dict_keys d) ->
                 exists response0 img,
                   Return response = Return response0
                   /\ In img response0 /\ ImageId img = k).
    { intros k Hk. destruct (Hkeys k Hk) as [[] | Hin].
      apply in_map_iff in Hin as (img & <- & Hin). now exists response, img. }
    destruct oe as [e|]; injection Hrun as <- <-; repeat split;
      try exact Hd; try discriminate.
    + right. exists e. simpl. now rewrite Hout.
    + now left.
  - injection Hrun as <- <-. repeat split; try discriminate.
    + intros k [].
    + right. now exists e.
Qed.

(** X6.  The age stored for an image is the number of whole days between
    its creation and the read of the clock.  It exceeds 90, the rotation
    threshold, exactly when at least 91 full days have passed; it is
    negative exactly for a creation date in the future; and it does not
    decrease when the clock is read later. *)
Theorem age_days_whole_days :
  forall R img t w,
    parse_creation_date R (CreationDate img) = Return (mkDatetime t true) ->
    exists entry,
      check_ami.ami_entry_of R img w = (Return entry, ticked w)
      /\ check_ami.age_days entry
         = (clock R (clock_reads w) - t) / microseconds_per_day
      /\ (check_ami.age_days entry > 90 <->
          clock R (clock_reads w) - t >= 91 * microseconds_per_day)
      /\ (check_ami.age_days entry < 0 <-> clock R (clock_reads w) < t)
      /\ (forall w2 entry2,
            clock R (clock_reads w) <= clock R (clock_reads w2) ->
            check_ami.ami_entry_of R img w2 = (Return entry2, ticked w2) ->
            check_ami.age_days entry <= check_ami.age_days entry2).
Proof.
  intros R img t w Hparse.
  exists (entry_at R img (mkDatetime t true) (clock R (clock_reads w))).
  split; [now apply ami_entry_of_ok|].
  unfold entry_at, microseconds_per_day; simpl.
  repeat split; try (intros H; Z.div_mod_to_equations; lia).
  intros w2 entry2 Hle Hrun2.
  rewrite (ami_entry_of_ok R img t w2 Hparse) in Hrun2.
  injection Hrun2 as <-. unfold entry_at, microseconds_per_day; simpl.
  apply Z.div_le_mono; lia.
Qed.

(** ** check_ami.py: the columns of the image table *)

Lemma str_length_app (a b : string) :
  String.length (a ++ b) = (String.length a + String.length b)%nat.
Proof. induction a as [|c a IH]; simpl; [reflexivity | now rewrite IH]. Qed.

Lemma str_repeat_length (c : ascii) (n : nat) :
  String.length (str_repeat c n) = n.
Proof. induction n as [|n IH]; simpl; [reflexivity | now rewrite IH]. Qed.

Lemma ljust_length (s : string) (w : nat) :
  String.length (ljust s w) = Nat.max (String.length s) w.
Proof. unfold ljust. rewrite str_length_app, str_repeat_length. lia. Qed.

Lemma str_take_length (n : nat) (s : string) :
  String.length (str_take n s) = Nat.min n (String.length s).
Proof.
  unfold str_take. revert n; induction s as [|c s IH]; intros [|n]; simpl;
    try reflexivity.
  now rewrite IH.
Qed.

Lemma str_take_prefix (n : nat) (s : string) :
  exists rest, s = str_take n s ++ rest.
Proof.
  unfold str_take. revert n; induction s as [|c s IH]; intros [|n]; simpl.
  - now exists "".
  - now exists "".
  - now exists (String c s).
  - destruct (IH n) as [rest Hrest]. exists rest. now rewrite <- Hrest.
Qed.

(** X7.  The row of an image with metadata shows the identifier, the name,
    the formatted creation date and the age.  The name column holds the
    whole name when it has at most 29 characters and its first 29
    characters otherwise, and is always exactly 30 characters wide; the
    other columns are padded to 15, 20 and 10 characters and never cut. *)
Theorem ami_row_columns :
  forall ami_info ami_id info,
    dict_get ami_id ami_info = Some info ->
    exists shown rest,
      check_ami.ami_row ami_info ami_id
      = ljust ami_id 15 ++ " " ++ ljust shown 30 ++ " "
        ++ ljust (check_ami.creation_date_str info) 20 ++ " "
        ++ ljust (str_of_int (check_ami.age_days info)) 10
      /\ check_ami.name info = shown ++ rest
      /\ String.length shown = Nat.min 29 (String.length (check_ami.name info))
      /\ String.length (ljust shown 30) = 30%nat
      /\ ((String.length (check_ami.name info) <= 29)%nat -> rest = "")
      /\ String.length (check_ami.ami_row ami_info ami_id)
         = (Nat.max (String.length ami_id) 15 + 31
            + Nat.max (String.length (check_ami.creation_date_str info)) 20
            + Nat.max (String.length (str_of_int (check_ami.age_days info))) 10
            + 2)%nat.
Proof.
  intros ami_info ami_id info Hget.
  unfold check_ami.ami_row. rewrite Hget. unfold len_str.
  destruct (Z.gtb_spec (Z.of_nat (String.length (check_ami.name info))) 29)
    as [Hlong | Hshort].
  - destruct (str_take_prefix 29 (check_ami.name info)) as [rest Hrest].
    exists (str_take 29 (check_ami.name info)), rest.
    assert (Hlen : String.length (str_take 29 (check_ami.name info)) = 29%nat)
      by (rewrite str_take_length; lia).
    repeat split.
    + exact Hrest.
    + rewrite str_take_length. reflexivity.
    + rewrite ljust_length, Hlen. reflexivity.
    + lia.
    + rewrite !str_length_app, !ljust_length, Hlen. simpl String.length. lia.
  - exists (check_ami.name info), "".
    repeat split.
    + clear. induction (check_ami.name info) as [|c s IH]; simpl;
        [reflexivity | now rewrite <- IH].
    + lia.
    + rewrite ljust_length. lia.
    + rewrite !str_length_app, !ljust_length. simpl String.length. lia.
Qed.

(** ** check_ami.py: the script as a whole *)



Lemma ami_rows_unknown (ids : list string) :
  map (check_ami.ami_row []) ids = map unknown_row ids.
Proof. apply map_ext. intros id. reflexivity. Qed.

(** X10.  When the request for the images fails, the report is printed all
    the same: after the diagnostic it shows the summary and the instances,
    a row of [Unknown] for every image id, and it closes with the line that
    all images are within the rotation policy. *)
Theorem report_without_metadata :
  forall R region instances w1 e,
    check_ami.get_ec2_instances R region (emit (banner_A region) init_world)
    = (Return instances, w1) ->
    instances <> [] ->
    ami_ids_of R instances <> [] ->
    describe_images R region (ami_ids_of R instances) = Raise e ->
    check_ami.main R region init_world
    = (Return tt,
       emit (["Error fetching AMI information: " ++ exn_str e]
             ++ summary_lines instances (ami_ids_of R instances)
             ++ instance_table R instances
             ++ ami_table_head
             ++ map unknown_row (sorted (ami_ids_of R instances))
             ++ [compliance_line])
            (logged (DescribeImages region (ami_ids_of R instances)) w1)).
Proof.
  intros R region instances w1 e Hfetch Hne Hids Hfail.
  rewrite (main_A_report R region instances w1 []
             (emit [ami_error_line e]
                   (logged (DescribeImages region (ami_ids_of R instances)) w1))
             Hfetch Hne).
  - rewrite emit_emit. unfold report_lines, ami_table_rows.
    rewrite ami_rows_unknown. reflexivity.
  - rewrite get_ami_info_run, Hfail by exact Hids. reflexivity.
Qed.

(** X11.  For a metadata map, the closing section never raises.  It is the
    compliance line alone when no image is older than 90 days.  Otherwise
    it is the two heading lines followed by one line for each identifier
    returned by [check_ami_rotation], in the same order, showing the
    identifier, the whole name and the age of its entry. *)
Theorem rotation_section_lines :
  forall ami_info w,
    dict_wf ami_info ->
    exists rows,
      check_ami.rotation_section ami_info w
      = (Return tt,
         emit (match check_ami.check_ami_rotation ami_info 90 with
               | [] => [compliance_line]
               | _ :: _ =>
                   [nl ++ "⚠️  AMI ROTATION WARNING:";
                    "The following AMIs are older than 90 days and should be rotated:"]
                   ++ rows
               end) w)
      /\ List.length rows
         = List.length (check_ami.check_ami_rotation ami_info 90)
      /\ (forall i ami_id,
            nth_error (check_ami.check_ami_rotation ami_info 90) i = Some ami_id ->
            exists info,
              dict_get ami_id ami_info = Some info
              /\ check_ami.age_days info > 90
              /\ nth_error rows i
                 = Some ("  - " ++ ami_id ++ ": " ++ check_ami.name info
                         ++ " (" ++ str_of_int (check_ami.age_days info)
                         ++ " days old)")).
Proof.
  intros ami_info w Hwf. exists (map warning_text (expired_entries ami_info)).
  change 90 with check_ami.rotation_days_default.
  rewrite check_ami_rotation_expired.
  split; [|split].
  - rewrite (rotation_section_run ami_info w Hwf). unfold rotation_lines.
    now destruct (expired_entries ami_info).
  - now rewrite !length_map.
  - intros i ami_id Hi. rewrite nth_error_map in Hi.
    destruct (nth_error (expired_entries ami_info) i) as [[k info]|] eqn:E;
      [|discriminate].
    injection Hi as <-. exists info.
    pose proof (nth_error_In _ _ E) as Hin.
    apply filter_In in Hin as [Hin Hgt]. simpl in Hgt.
    repeat split.
    + now apply In_dict_get.
    + unfold check_ami.rotation_days_default. lia.
    + rewrite nth_error_map, E. reflexivity.
Qed.

(** X12.  When the service answers the image request with records of
    requested images only, every image listed in the warning block also has
    its row in the image table, and that row is built from its metadata. *)
Theorem warned_images_have_rows :
  forall R region ami_ids response w ami_info w',
    describe_images R region ami_ids = Return response ->
    (forall img, In img response -> In (ImageId img) ami_ids) ->
    check_ami.get_ami_info R region ami_ids w = (Return ami_info, w') ->
    forall ami_id,
      In ami_id (check_ami.check_ami_rotation ami_info
                   check_ami.rotation_days_default) ->
      In ami_id (sorted ami_ids)
      /\ In (check_ami.ami_row ami_info ami_id) (ami_table_rows ami_ids ami_info)
      /\ exists info,
          dict_get ami_id ami_info = Some info
          /\ check_ami.age_days info > 90.
Proof.
  intros R region ami_ids response w ami_info w' Hresp Hsub Hrun ami_id Hin.
  assert (Hwf : dict_wf ami_info) by (eapply get_ami_info_wf; exact Hrun).
  assert (Hid : In ami_id ami_ids).
  { apply check_ami_rotation_keys in Hin.
    destruct ami_ids as [|a ids].
    - injection Hrun as <- _. destruct Hin.
    - rewrite get_ami_info_run, Hresp in Hrun by discriminate.
      cbv zeta in Hrun.
      destruct (check_ami.fill_ami_info R response [] _) as [[d oe] w2] eqn:E.
      pose proof (fill_ami_info_keys _ _ _ _ _ _ _ E) as Hkeys.
      assert (d = ami_info) by (destruct oe; now injection Hrun). subst d.
      destruct (Hkeys ami_id Hin) as [[] | Hk].
      apply in_map_iff in Hk as (img & <- & Himg). now apply Hsub. }
  assert (Hs : In ami_id (sorted ami_ids))
    by (eapply Permutation_in; [symmetry; apply sorted_perm | exact Hid]).
  split; [exact Hs | split].
  - unfold ami_table_rows. now apply in_map.
  - apply check_ami_rotation_In in Hin as (info & Hi & Hgt).
    exists info. split; [now apply In_dict_get | exact Hgt].
Qed.

(** ** latest_ami.py: the script as a whole *)

Lemma format_ami_info_no_name R ami t (w : world) :
  parse_creation_date R (CreationDate ami) = Return (mkDatetime t true) ->
  Name ami = None ->
  latest_ami.format_ami_info R ami w
  = (Raise (Exception "'Name'"),
     emit ["Latest AMI Found:"; "==================";
           "AMI ID:          " ++ ImageId ami] (ticked w)).
Proof.
  intros Hparse Hname. unfold latest_ami.format_ami_info.
  rewrite Hparse, bind_lift, bind_now.
  unfold days_between. simpl aware. simpl Bool.eqb. cbv iota.
  rewrite bind_lift, !bind_print, Hname, !emit_emit.
  reflexivity.
Qed.

(** X13.  When the lookup finds an image whose fields render,
    [latest_ami.main] prints the detail block and then the verdict.  The
    verdict reads the clock a second time: it warns exactly when the age at
    that second read exceeds 90 days, an age of exactly 90 days passes, and
    with a clock that does not run backwards the age of the verdict is not
    smaller than the age shown in the detail block. *)
Theorem latest_ami_main_found :
  forall R region pat owner ami w1 t nm,
    latest_ami.get_latest_ami R region pat owner
      (emit (banner_B region pat owner) init_world) = (Return (Some ami), w1) ->
    parse_creation_date R (CreationDate ami) = Return (mkDatetime t true) ->
    Name ami = Some nm ->
    let age1 := (clock R (clock_reads w1) - t) / microseconds_per_day in
    let age2 := (clock R (S (clock_reads w1)) - t) / microseconds_per_day in
    latest_ami.main R region pat owner init_world
    = (Return tt,
       emit (detail_lines R ami nm (mkDatetime t true) age1
             ++ tag_lines ami
             ++ [nl ++ "Block Device Mappings:"]
             ++ mapping_lines ami
             ++ verdict_lines age2)
            (ticked (ticked w1)))
    /\ (age2 > 90 ->
        verdict_lines age2
        = [nl ++ "⚠️  WARNING: This AMI is " ++ str_of_int age2
              ++ " days old (>90 days)";
           "Consider updating to a newer AMI for security compliance."])
    /\ (age2 <= 90 ->
        verdict_lines age2
        = [nl ++ "✅ AMI is within 90-day rotation policy ("
              ++ str_of_int age2 ++ " days old)"])
    /\ (clock_monotone R -> age1 <= age2).
Proof.
  intros R region pat owner ami w1 t nm Hlookup Hparse Hname age1 age2.
  repeat apply conj.
  - unfold latest_ami.main. rewrite !bind_print, !emit_emit.
    change (((_ ++ _) ++ _) ++ _)%list with (banner_B region pat owner).
    rewrite (bind_run _ _ _ _ _ Hlookup).
    rewrite (bind_run _ _ _ _ _
               (format_ami_info_run R ami nm (mkDatetime t true) w1
                  Hparse eq_refl Hname)).
    rewrite Hparse, bind_lift, bind_now.
    unfold days_between. simpl aware. simpl Bool.eqb. cbv iota.
    rewrite bind_lift. cbn [instant clock_reads emit ticked].
    change ((clock R (clock_reads w1) - t) / microseconds_per_day) with age1.
    change ((clock R (S (clock_reads w1)) - t) / microseconds_per_day) with age2.
    unfold verdict_lines.
    destruct (age2 >? 90).
    + rewrite bind_print, print_run. unfold emit, ticked.
      cbn [stdout api_log clock_reads]. rewrite <- !app_assoc. reflexivity.
    + rewrite print_run. unfold emit, ticked.
      cbn [stdout api_log clock_reads]. rewrite <- !app_assoc. reflexivity.
  - intros H. unfold verdict_lines.
    destruct (Z.gtb_spec age2 90); [reflexivity | lia].
  - intros H. unfold verdict_lines.
    destruct (Z.gtb_spec age2 90); [lia | reflexivity].
  - intros Hmono. unfold age1, age2, microseconds_per_day.
    apply Z.div_le_mono; [lia|].
    pose proof (Hmono (clock_reads w1) (S (clock_reads w1))). lia.
Qed.

(** X14.  When the image found has no [Name], [latest_ami.main] raises
    [KeyError] for that key after the banner and the first three lines of
    the detail block; nothing else is printed. *)
Theorem latest_ami_main_missing_name :
  forall R region pat owner ami w1 t,
    latest_ami.get_latest_ami R region pat owner
      (emit (banner_B region pat owner) init_world) = (Return (Some ami), w1) ->
    parse_creation_date R (CreationDate ami) = Return (mkDatetime t true) ->
    Name ami = None ->
    latest_ami.main R region pat owner init_world
    = (Raise (Exception "'Name'"),
       emit ["Latest AMI Found:"; "==================";
             "AMI ID:          " ++ ImageId ami] (ticked w1)).
Proof.
  intros R region pat owner ami w1 t Hlookup Hparse Hname.
  unfold latest_ami.main. rewrite !bind_print, !emit_emit.
  change (((_ ++ _) ++ _) ++ _)%list with (banner_B region pat owner).
  rewrite (bind_run _ _ _ _ _ Hlookup).
  unfold bind at 1.
  now rewrite (format_ami_info_no_name R ami t w1 Hparse Hname).
Qed.

(** ** Computations that send no request *)











(** ** The normalisation of creation dates *)

Lemma str_app_assoc (a b c : string) : a ++ (b ++ c) = (a ++ b) ++ c.
Proof. induction a as [|x a IH]; simpl; [reflexivity | now rewrite IH]. Qed.

Lemma str_replace_app (c : ascii) (by_ a b : string) :
  str_replace c by_ (a ++ b) = str_replace c by_ a ++ str_replace c by_ b.
Proof.
  induction a as [|x a IH]; simpl; [reflexivity|].
  destruct (Ascii.eqb x c); rewrite IH; [|reflexivity].
  apply str_app_assoc.
Qed.

Lemma str_replace_absent (c : ascii) (by_ s : string) :
  str_has c s = false -> str_replace c by_ s = s.
Proof.
  induction s as [|x s IH]; simpl; [reflexivity|].
  destruct (Ascii.eqb x c); simpl; [discriminate|].
  intros H. now rewrite IH.
Qed.

Lemma str_has_app (c : ascii) (a b : string) :
  str_has c (a ++ b) = str_has c a || str_has c b.
Proof.
  induction a as [|x a IH]; simpl; [reflexivity|].
  rewrite IH. now rewrite orb_assoc.
Qed.

Lemma str_replace_removes (c : ascii) (by_ s : string) :
  str_has c by_ = false -> str_has c (str_replace c by_ s) = false.
Proof.
  intros Hby. induction s as [|x s IH]; simpl; [reflexivity|].
  destruct (Ascii.eqb x c) eqn:E.
  - now rewrite str_has_app, Hby, IH.
  - simpl. now rewrite E, IH.
Qed.

(** X16.  Before parsing, every [Z] of a creation date is replaced by
    [+00:00]: a date that ends in [Z] and has no other [Z] is parsed with
    the suffix [+00:00] instead, a date without [Z] is parsed as it is, and
    the string handed to [fromisoformat] never contains a [Z]. *)
Theorem creation_date_normalised :
  forall R s,
    (str_has "Z"%char s = false ->
     parse_creation_date R (s ++ "Z") = fromisoformat R (s ++ "+00:00")
     /\ parse_creation_date R s = fromisoformat R s)
    /\ (exists s',
          parse_creation_date R s = fromisoformat R s'
          /\ str_has "Z"%char s' = false).
Proof.
  intros R s. unfold parse_creation_date. split.
  - intros Hs. rewrite str_replace_app, !str_replace_absent by exact Hs.
    split; reflexivity.
  - exists (str_replace "Z"%char "+00:00" s). split; [reflexivity|].
    now apply str_replace_removes.
Qed.

(** ** The further statements at the sample data *)


Lemma get_latest_ami_bad_date_witness :
  latest_ami.get_latest_ami bad_R "eu-west-1" "*company-abc*" "self" init_world
  = (Return None,
     mkWorld ["Error fetching AMI information: Invalid isoformat string: 'yesterday'"]
             [DescribeImagesFiltered "eu-west-1" ["self"]
                (latest_filters "*company-abc*")] 0).
Proof.
  refine (get_latest_ami_bad_date bad_R "eu-west-1" "*company-abc*" "self"
            [image_jan] image_bad [image_mar]
            (Exception "Invalid isoformat string: 'yesterday'") init_world
            eq_refl _ eq_refl).
  constructor; [eexists; reflexivity | constructor].
Defined.

Lemma get_ami_info_entries_witness :
  check_ami.get_ami_info sample_R "eu-west-1" ["ami-0bbb"; "ami-0ccc"] init_world
  = (Return sample_ami_info,
     mkWorld [] [DescribeImages "eu-west-1" ["ami-0bbb"; "ami-0ccc"]] 2).
Proof.
  refine (proj1 (get_ami_info_entries sample_R "eu-west-1"
                   ["ami-0bbb"; "ami-0ccc"] [image_mar; image_may] init_world
                   _ eq_refl _ _)).
  - discriminate.
  - constructor; [eexists; reflexivity|].
    constructor; [eexists; reflexivity | constructor].
  - repeat (constructor; [simpl; intuition discriminate|]). constructor.
Defined.

Lemma get_ami_info_bad_record_witness :
  check_ami.get_ami_info bad_R "eu-west-1" ["ami-0bbb"; "ami-0eee"; "ami-0ccc"]
    init_world
  = (Return [("ami-0bbb",
              check_ami.mkEntry "company-abc-base-2"
                (mkDatetime 1709251200000000 true) "2024-03-01 00:00:00 UTC" 92)],
     mkWorld ["Error fetching AMI information: Invalid isoformat string: 'yesterday'"]
             [DescribeImages "eu-west-1" ["ami-0bbb"; "ami-0eee"; "ami-0ccc"]]
             1).
Proof.
  refine (proj1 (get_ami_info_bad_record bad_R "eu-west-1"
                   ["ami-0bbb"; "ami-0eee"; "ami-0ccc"]
                   [image_mar] image_bad [image_may]
                   (Exception "Invalid isoformat string: 'yesterday'") init_world
                   _ eq_refl _ _ eq_refl)).
  - discriminate.
  - constructor; [eexists; reflexivity | constructor].
  - repeat (constructor; [simpl; intuition discriminate|]). constructor.
Defined.

Lemma get_ami_info_invariant_witness : dict_wf sample_ami_info.
Proof.
  exact (proj1 (get_ami_info_invariant sample_R "eu-west-1"
                  (ami_ids_of sample_R sample_instances) sample_w1
                  sample_ami_info sample_w2 sample_metadata)).
Defined.

Lemma age_days_whole_days_witness :
  exists entry,
    check_ami.ami_entry_of sample_R image_mar init_world
    = (Return entry, ticked init_world)
    /\ check_ami.age_days entry = 92.
Proof.
  destruct (age_days_whole_days sample_R image_mar 1709251200000000 init_world
              eq_refl) as (entry & Hrun & Hage & _).
  exists entry. split; [exact Hrun | rewrite Hage; reflexivity].
Defined.

Lemma ami_row_columns_witness :
  String.length (check_ami.ami_row sample_ami_info "ami-0bbb") = 81%nat.
Proof.
  destruct (ami_row_columns sample_ami_info "ami-0bbb"
              (check_ami.mkEntry "company-abc-base-2"
                 (mkDatetime 1709251200000000 true) "2024-03-01 00:00:00 UTC" 92)
              eq_refl) as (shown & rest & _ & _ & _ & _ & _ & Hlen).
  rewrite Hlen. reflexivity.
Defined.

Lemma report_without_metadata_witness :
  fst (check_ami.main no_metadata_R "eu-west-1" init_world) = Return tt.
Proof.
  rewrite (report_without_metadata no_metadata_R "eu-west-1" sample_instances
             sample_w1 service_error).
  - reflexivity.
  - reflexivity.
  - discriminate.
  - discriminate.
  - reflexivity.
Defined.

Lemma rotation_section_lines_witness :
  exists rows,
    check_ami.rotation_section sample_ami_info init_world
    = (Return tt,
       emit ([nl ++ "⚠️  AMI ROTATION WARNING:";
              "The following AMIs are older than 90 days and should be rotated:"]
             ++ rows) init_world)
    /\ List.length rows = 1%nat.
Proof.
  destruct (rotation_section_lines sample_ami_info init_world sample_ami_info_wf)
    as (rows & Hrun & Hlen & _).
  exists rows. split; [exact Hrun | exact Hlen].
Defined.

Lemma warned_images_have_rows_witness :
  In "ami-0bbb" (sorted (ami_ids_of sample_R sample_instances)).
Proof.
  refine (proj1 (warned_images_have_rows sample_R "eu-west-1"
                   (ami_ids_of sample_R sample_instances)
                   [image_mar; image_may] sample_w1 sample_ami_info sample_w2
                   eq_refl _ sample_metadata "ami-0bbb" _)).
  - intros img [<- | [<- | []]]; vm_compute; tauto.
  - vm_compute. tauto.
Defined.

Lemma latest_ami_main_found_witness :
  fst (latest_ami.main lookup_R "eu-west-1" "*company-abc*" "self" init_world)
  = Return tt.
Proof.
  rewrite (proj1 (latest_ami_main_found lookup_R "eu-west-1" "*company-abc*"
                    "self" image_mar
                    (logged (DescribeImagesFiltered "eu-west-1" ["self"]
                               (latest_filters "*company-abc*"))
                            (emit (banner_B "eu-west-1" "*company-abc*" "self")
                                  init_world))
                    1709251200000000 "company-abc-base-2"
                    eq_refl eq_refl eq_refl)).
  reflexivity.
Defined.

Lemma latest_ami_main_missing_name_witness :
  fst (latest_ami.main nameless_R "eu-west-1" "*company-abc*" "self" init_world)
  = Raise (Exception "'Name'").
Proof.
  rewrite (latest_ami_main_missing_name nameless_R "eu-west-1" "*company-abc*"
             "self" image_may
             (logged (DescribeImagesFiltered "eu-west-1" ["self"]
                        (latest_filters "*company-abc*"))
                     (emit (banner_B "eu-west-1" "*company-abc*" "self")
                           init_world))
             1714521600000000 eq_refl eq_refl eq_refl).
  reflexivity.
Defined.

Lemma creation_date_normalised_witness :
  parse_creation_date sample_R "2024-01-01T00:00:00.000Z"
  = fromisoformat sample_R "2024-01-01T00:00:00.000+00:00".
Proof.
  exact (proj1 (proj1 (creation_date_normalised sample_R
                         "2024-01-01T00:00:00.000") eq_refl)).
Defined.
